(** * Social media downloader: URL classifier, format resolver, job table

    A shallow embedding of [src/app.py] (a Flask front end over yt-dlp) and
    the properties of its specification.

    Conventions of the embedding.
    - A Python [str] is a Rocq [string]; each character stands for the code
      point of the same number, so the model covers the strings whose code
      points are below 256.  The character tables ([py_isspace],
      [py_isalnum], [py_lower_char]) are CPython's, restricted to that range.
    - A Python value that may be [None] is an [option]; a dictionary key that
      may be absent is a second [option] around it.
    - Dictionaries that the code mutates in place and shares (the format
      dictionaries of [/info]) live in a store, a list indexed by object
      identity; the job table [downloads] is a [gmap] from job id to job.
    - What the outside world decides (the answers of yt-dlp, of the file
      system and of the database, the value of [uuid.uuid4()]) is an input of
      the handler that consumes it. *)

From Stdlib Require Import ZArith String Ascii DecimalString.
From Stdlib Require Import Decimal DecimalFacts DecimalPos DecimalN DecimalZ.
From stdpp Require Import base option list gmap strings.

Local Open Scope string_scope.
Local Open Scope list_scope.
Local Open Scope Z_scope.

(** ** Python string primitives *)

Module PyStr.

Definition code (c : ascii) : nat := nat_of_ascii c.

Definition in_range (lo hi : nat) (c : ascii) : bool :=
  (lo <=? code c)%nat && (code c <=? hi)%nat.

(** [str.isspace] on one character, which is also [\s] of [re] and the set
    that [str.strip()] removes. *)
Definition py_isspace (c : ascii) : bool :=
  in_range 9 13 c || in_range 28 32 c
  || (code c =? 133)%nat || (code c =? 160)%nat.

Definition is_ascii_digit (c : ascii) : bool := in_range 48 57 c.

Definition is_ascii_alpha (c : ascii) : bool :=
  in_range 65 90 c || in_range 97 122 c.

(** [str.isalnum] on one character. *)
Definition py_isalnum (c : ascii) : bool :=
  is_ascii_digit c || is_ascii_alpha c
  || (code c =? 170)%nat || in_range 178 179 c || (code c =? 181)%nat
  || in_range 185 186 c || in_range 188 190 c
  || in_range 192 214 c || in_range 216 246 c || in_range 248 255 c.

(** [\w] of [re] on a [str] pattern. *)
Definition py_isword (c : ascii) : bool :=
  py_isalnum c || (code c =? 95)%nat.

Definition py_lower_char (c : ascii) : ascii :=
  if in_range 65 90 c || in_range 192 214 c || in_range 216 222 c
  then ascii_of_nat (code c + 32) else c.

Fixpoint str_map (f : ascii -> ascii) (s : string) : string :=
  match s with
  | EmptyString => EmptyString
  | String c s' => String (f c) (str_map f s')
  end.

Fixpoint str_filter (p : ascii -> bool) (s : string) : string :=
  match s with
  | EmptyString => EmptyString
  | String c s' => if p c then String c (str_filter p s') else str_filter p s'
  end.

Fixpoint str_mem (c : ascii) (s : string) : bool :=
  match s with
  | EmptyString => false
  | String d s' => if Ascii.eqb c d then true else str_mem c s'
  end.

Definition py_lower (s : string) : string := str_map py_lower_char s.

(** [s.lstrip(chars)] and [s.rstrip(chars)] for a set of characters. *)
Fixpoint lstrip_by (p : ascii -> bool) (s : string) : string :=
  match s with
  | EmptyString => EmptyString
  | String c s' => if p c then lstrip_by p s' else s
  end.

Fixpoint rstrip_by (p : ascii -> bool) (s : string) : string :=
  match s with
  | EmptyString => EmptyString
  | String c s' =>
      match rstrip_by p s' with
      | EmptyString => if p c then EmptyString else String c EmptyString
      | r => String c r
      end
  end.

(** [s.strip()] *)
Definition py_strip (s : string) : string :=
  rstrip_by py_isspace (lstrip_by py_isspace s).

(** [s.replace(old, new)] for a one-character [old]. *)
Fixpoint py_replace (old : ascii) (new : string) (s : string) : string :=
  match s with
  | EmptyString => EmptyString
  | String c s' =>
      if Ascii.eqb c old then new +:+ py_replace old new s'
      else String c (py_replace old new s')
  end.

(** [s.split(sep)] for a one-character [sep]. *)
Fixpoint py_split (sep : ascii) (s : string) : list string :=
  match s with
  | EmptyString => [EmptyString]
  | String c s' =>
      if Ascii.eqb c sep then EmptyString :: py_split sep s'
      else match py_split sep s' with
           | h :: t => String c h :: t
           | [] => [String c EmptyString]
           end
  end.

(** [s.startswith(p)] *)
Fixpoint py_startswith (p s : string) : bool :=
  match p, s with
  | EmptyString, _ => true
  | String a p', String b s' => Ascii.eqb a b && py_startswith p' s'
  | String _ _, EmptyString => false
  end.

(** [str(n)] for an [int]. *)
Definition py_str_int (n : Z) : string := NilZero.string_of_int (Z.to_int n).

(** *** [int(s)]

    CPython accepts white space, an optional sign, decimal digits with single
    underscores between them, white space; anything else is a [ValueError],
    here [None].  White space is what [Py_ISSPACE] accepts, and the two
    non-ASCII spaces that CPython maps to a blank beforehand.  More than
    [int_max_str_digits] digits are refused as well. *)
Definition int_space (c : ascii) : bool :=
  in_range 9 13 c || (code c =? 32)%nat
  || (code c =? 133)%nat || (code c =? 160)%nat.

Definition int_max_str_digits : nat := 4300.

Definition digit_val (c : ascii) : Z := Z.of_nat (code c) - 48.

(** [digits_go prev_us acc n s]: [acc] is the value of the [n] digits read so
    far, [prev_us] tells that the last character read was an underscore. *)
Fixpoint digits_go (prev_us : bool) (acc : Z) (n : nat) (s : string)
  : option (Z * nat) :=
  match s with
  | EmptyString => if prev_us then None else Some (acc, n)
  | String c s' =>
      if is_ascii_digit c then digits_go false (10 * acc + digit_val c) (S n) s'
      else if (code c =? 95)%nat then
        if prev_us then None else digits_go true acc n s'
      else None
  end.

Definition py_int_digits (s : string) : option Z :=
  match s with
  | EmptyString => None
  | String c _ =>
      if is_ascii_digit c then
        match digits_go false 0 0 s with
        | Some (v, n) => if (n <=? int_max_str_digits)%nat then Some v else None
        | None => None
        end
      else None
  end.

Definition py_int (s : string) : option Z :=
  let t := rstrip_by int_space (lstrip_by int_space s) in
  match t with
  | String "-" t' => Z.opp <$> py_int_digits t'
  | String "+" t' => py_int_digits t'
  | _ => py_int_digits t
  end.

End PyStr.

Import PyStr.

(** ** Regular expressions: the fragment of [re] that the URL patterns use *)

Module Regex.

(** What one pattern position accepts. *)
Inductive charset :=
  | One (c : ascii)        (* a literal or escaped character *)
  | AnyChar                (* the dot: any character but a newline *)
  | NoneOf (cs : string)   (* a negated class *)
  | Digit.                 (* the class of decimal digits *)

Definition charset_mem (c : ascii) (cs : charset) : bool :=
  match cs with
  | One d => Ascii.eqb c d
  | AnyChar => negb (Ascii.eqb c "010")
  | NoneOf l => negb (str_mem c l)
  | Digit => is_ascii_digit c
  end.

Inductive regex :=
  | Void
  | Eps
  | Chr (cs : charset)
  | Cat (r1 r2 : regex)
  | Alt (r1 r2 : regex)
  | Star (r : regex).

Definition Plus (r : regex) : regex := Cat r (Star r).
Definition Opt (r : regex) : regex := Alt r Eps.

(** A run of literal characters. *)
Fixpoint lit (s : string) : regex :=
  match s with
  | EmptyString => Eps
  | String c EmptyString => Chr (One c)
  | String c s' => Cat (Chr (One c)) (lit s')
  end.

(** The words of a pattern. *)
Inductive matches : regex -> string -> Prop :=
  | m_eps : matches Eps EmptyString
  | m_chr cs c : charset_mem c cs = true -> matches (Chr cs) (String c EmptyString)
  | m_cat r1 r2 s1 s2 :
      matches r1 s1 -> matches r2 s2 -> matches (Cat r1 r2) (s1 +:+ s2)
  | m_alt_l r1 r2 s : matches r1 s -> matches (Alt r1 r2) s
  | m_alt_r r1 r2 s : matches r2 s -> matches (Alt r1 r2) s
  | m_star_nil r : matches (Star r) EmptyString
  | m_star_cons r s1 s2 :
      matches r s1 -> matches (Star r) s2 -> matches (Star r) (s1 +:+ s2).

Fixpoint nullable (r : regex) : bool :=
  match r with
  | Void => false
  | Eps => true
  | Chr _ => false
  | Cat r1 r2 => nullable r1 && nullable r2
  | Alt r1 r2 => nullable r1 || nullable r2
  | Star _ => true
  end.

Definition cat (r1 r2 : regex) : regex :=
  match r1, r2 with
  | Void, _ => Void
  | _, Void => Void
  | Eps, _ => r2
  | _, _ => Cat r1 r2
  end.

Definition alt (r1 r2 : regex) : regex :=
  match r1, r2 with
  | Void, _ => r2
  | _, Void => r1
  | _, _ => Alt r1 r2
  end.

(** The derivative: the words [s] such that [c] followed by [s] matches. *)
Fixpoint deriv (c : ascii) (r : regex) : regex :=
  match r with
  | Void => Void
  | Eps => Void
  | Chr cs => if charset_mem c cs then Eps else Void
  | Cat r1 r2 =>
      if nullable r1 then alt (cat (deriv c r1) r2) (deriv c r2)
      else cat (deriv c r1) r2
  | Alt r1 r2 => alt (deriv c r1) (deriv c r2)
  | Star r1 => cat (deriv c r1) (Star r1)
  end.

(** [re.match(r, s) is not None]: some prefix of [s] matches. *)
Fixpoint match_prefix (r : regex) (s : string) : bool :=
  nullable r ||
  match s with
  | EmptyString => false
  | String c s' => match_prefix (deriv c r) s'
  end.

(** [re.search(r, s) is not None]: a match starts at some position of [s]. *)
Fixpoint re_search (r : regex) (s : string) : bool :=
  match_prefix r s ||
  match s with
  | EmptyString => false
  | String _ s' => re_search r s'
  end.

End Regex.

Import Regex.

(** ** Format resolver: the curation of [video_info['formats']] in [get_info] *)

Module Resolver.

(** One dictionary of [video_info['formats']], as [get_video_info] builds it.
    [filesize] is absent from the two dictionaries that [get_info] makes up
    itself. *)
Record MediaFormat := mkFormat {
  format_id : option string;
  ext : string;
  resolution : string;
  filesize : option (option Z);
  format_note : option string;
  vcodec : option string;
  acodec : option string
}.

#[export] Instance MediaFormat_eq_dec : EqDecision MediaFormat.
Proof. solve_decision. Defined.

(** [format['format_note'] = note] *)
Definition set_note (note : string) (f : MediaFormat) : MediaFormat :=
  {| format_id := format_id f; ext := ext f; resolution := resolution f;
     filesize := filesize f; format_note := Some note;
     vcodec := vcodec f; acodec := acodec f |}.

Definition target_resolutions : list Z :=
  [144; 240; 360; 480; 720; 1080; 1440; 2160].

(** The formats are objects of a store; a reference is a position in it.
    [resolution_formats] is a dictionary from bucket to [None] or a reference,
    kept in insertion order. *)
Definition dict : Type := list (Z * option nat).

Fixpoint dict_get (k : Z) (d : dict) : option (option nat) :=
  match d with
  | [] => None
  | (k', v) :: d' => if (k =? k')%Z then Some v else dict_get k d'
  end.

Fixpoint dict_set (k : Z) (v : option nat) (d : dict) : dict :=
  match d with
  | [] => [(k, v)]
  | (k', v') :: d' => if (k =? k')%Z then (k', v) :: d' else (k', v') :: dict_set k v d'
  end.

(** [{res: None for res in target_resolutions}] *)
Definition resolution_formats_init : dict :=
  map (fun res => (res, None)) target_resolutions.

Definition has_video (f : MediaFormat) : bool :=
  negb (bool_decide (vcodec f = Some "none")).

Definition has_audio (f : MediaFormat) : bool :=
  negb (bool_decide (acodec f = Some "none")).

(** The two [continue] tests of the first loop: [true] when the format is
    appended to [av_formats]. *)
Definition av_eligible (f : MediaFormat) : bool :=
  if negb (has_video f && has_audio f)
     || bool_decide (resolution f = "unknownxunknown")
  then false
  else if negb (bool_decide (ext f ∈ ["mp4"; "webm"])) then false
  else true.

(** [av_formats], as references; [i] is the position of the head of [fs]. *)
Fixpoint collect_av (i : nat) (fs : list MediaFormat) : list nat :=
  match fs with
  | [] => []
  | f :: fs' =>
      if av_eligible f then i :: collect_av (S i) fs' else collect_av (S i) fs'
  end.

Definition av_formats (store : list MediaFormat) : list nat :=
  collect_av 0 store.

(** [int(format['resolution'].split('x')[1])]; [None] is the [IndexError] or
    the [ValueError] that the loop catches. *)
Definition height_of (f : MediaFormat) : option Z :=
  match py_split "x" (resolution f) !! 1%nat with
  | Some h => py_int h
  | None => None
  end.

(** [for res in target_resolutions: if height <= res: ...; break] *)
Fixpoint scan_targets (height : Z) (fmt : nat) (targets : list Z) (rf : dict)
  : dict :=
  match targets with
  | [] => rf
  | res :: rest =>
      if (height <=? res)%Z then
        match dict_get res rf with
        | Some None => dict_set res (Some fmt) rf
        | _ => rf
        end
      else scan_targets height fmt rest rf
  end.

(** The body of the second loop for the format at reference [fmt]. *)
Definition assign_format (store : list MediaFormat) (rf : dict) (fmt : nat)
  : dict :=
  match store !! fmt with
  | Some f =>
      match height_of f with
      | Some height => scan_targets height fmt target_resolutions rf
      | None => rf
      end
  | None => rf
  end.

Definition assign_all (store : list MediaFormat) : dict :=
  fold_left (assign_format store) (av_formats store) resolution_formats_init.

(** [sorted(items, key=lambda x: x[0])]: a stable insertion sort. *)
Fixpoint insert_by_key (x : Z * option nat) (l : dict) : dict :=
  match l with
  | [] => [x]
  | y :: l' => if (x.1 <? y.1)%Z then x :: y :: l' else y :: insert_by_key x l'
  end.

Definition sorted_items (d : dict) : dict :=
  fold_left (fun acc x => insert_by_key x acc) d [].

(** An element of the list [formats]: a reference to a stored format or a
    dictionary written out in [get_info]. *)
Inductive entry :=
  | Ref (i : nat)
  | Made (f : MediaFormat).

(** The third loop: relabel in place and append. *)
Fixpoint label_all (items : dict) (store : list MediaFormat)
    (formats : list entry) : list MediaFormat * list entry :=
  match items with
  | [] => (store, formats)
  | (res, Some i) :: rest =>
      label_all rest (alter (set_note (py_str_int res +:+ "p")) i store)
                (formats ++ [Ref i])
  | (res, None) :: rest => label_all rest store formats
  end.

Definition best_quality : MediaFormat :=
  {| format_id := Some "best[ext=mp4]/best"; ext := "mp4";
     resolution := "Best quality"; filesize := None;
     format_note := Some "Best quality";
     vcodec := Some "h264"; acodec := Some "aac" |}.

Definition audio_only : MediaFormat :=
  {| format_id := Some "bestaudio"; ext := "mp3";
     resolution := "Audio only"; filesize := None;
     format_note := Some "MP3 Audio";
     vcodec := Some "none"; acodec := Some "mp3" |}.

Definition deref (store : list MediaFormat) (e : entry) : option MediaFormat :=
  match e with
  | Ref i => store !! i
  | Made f => Some f
  end.

(** Lines 274 to 339 of [get_info]: from the store holding
    [video_info['formats']] to the store after the relabelling and the list
    assigned to [video_info['formats']]. *)
Definition curate_entries (store : list MediaFormat)
  : list MediaFormat * list entry :=
  let '(store', formats) := label_all (sorted_items (assign_all store)) store [] in
  let formats := if bool_decide (formats = []) then formats ++ [Made best_quality]
                 else formats in
  (store', formats ++ [Made audio_only]).

#[export] Instance entry_eq_dec : EqDecision entry.
Proof. solve_decision. Defined.

(** The formats that the response serialises: every entry read in the final
    store. *)
Definition curate (store : list MediaFormat)
  : list MediaFormat * list MediaFormat :=
  let '(store', formats) := curate_entries store in
  (store', omap (deref store') formats).

(** *** The bucket assignment as the specification words it

    For comparison with [assign_all]: the buckets are taken in ascending
    order and each takes the first format of [av] whose height is at most the
    bucket and that no smaller bucket has claimed. *)
Definition height_at (store : list MediaFormat) (i : nat) : option Z :=
  store !! i ≫= height_of.

Definition spec_candidate (store : list MediaFormat) (res : Z)
    (claimed : list nat) (i : nat) : bool :=
  match height_at store i with
  | Some h => (h <=? res)%Z && negb (bool_decide (i ∈ claimed))
  | None => false
  end.

Fixpoint spec_assign (store : list MediaFormat) (av : list nat)
    (targets : list Z) (claimed : list nat) : dict :=
  match targets with
  | [] => []
  | res :: rest =>
      match find (spec_candidate store res claimed) av with
      | Some i => (res, Some i) :: spec_assign store av rest (i :: claimed)
      | None => (res, None) :: spec_assign store av rest claimed
      end
  end.

Definition spec_assign_all (store : list MediaFormat) : dict :=
  spec_assign store (av_formats store) target_resolutions [].

(** [fits res h]: [res] is the smallest target resolution that is at least
    [h]. *)
Definition fits (res h : Z) : bool :=
  (h <=? res)%Z && forallb (fun r => (r <? h)%Z || (res <=? r)%Z) target_resolutions.

Definition fits_at (store : list MediaFormat) (res : Z) (i : nat) : bool :=
  match height_at store i with
  | Some h => fits res h
  | None => false
  end.

End Resolver.

Import Resolver.

(** ** URL classifier *)

Section Classifier.

(** When the host part of a URL holds both an opening and a closing bracket,
    [urllib.parse] checks it with the [ipaddress] module and raises a
    [ValueError] on a bad one; the check is a parameter of the model, applied
    to that part. *)
Variable bracketed_netloc_ok : string -> bool.

Record SplitResult := mkSplit {
  scheme : string;
  netloc : string;
  path : string;
  query : string;
  fragment : string
}.

(** [break_at p s]: the characters before the first one that satisfies [p],
    and the rest from that character on. *)
Fixpoint break_at (p : ascii -> bool) (s : string) : string * string :=
  match s with
  | EmptyString => (EmptyString, EmptyString)
  | String c s' =>
      if p c then (EmptyString, s)
      else let '(a, b) := break_at p s' in (String c a, b)
  end.

Definition str_tail (s : string) : string :=
  match s with
  | EmptyString => EmptyString
  | String _ s' => s'
  end.

Fixpoint str_forallb (p : ascii -> bool) (s : string) : bool :=
  match s with
  | EmptyString => true
  | String c s' => p c && str_forallb p s'
  end.

Definition c0_control_or_space (c : ascii) : bool := (code c <=? 32)%nat.

Definition scheme_char (c : ascii) : bool :=
  is_ascii_alpha c || is_ascii_digit c || str_mem c "+-.".

(** The scheme part of [urlsplit]: the scheme and the rest of the URL. *)
Definition split_scheme (url : string) : string * string :=
  let '(pre, rest) := break_at (Ascii.eqb ":") url in
  match pre, rest with
  | String c0 _, String _ rest' =>
      if is_ascii_alpha c0 && str_forallb scheme_char pre
      then (py_lower pre, rest') else (EmptyString, url)
  | _, _ => (EmptyString, url)
  end.

(** [_splitnetloc(url, 2)] when [url] starts with two slashes. *)
Definition split_netloc (url : string) : option (string * string) :=
  match url with
  | String "/" (String "/" rest) => Some (break_at (fun c => str_mem c "/?#") rest)
  | _ => None
  end.

(** [urlsplit(url)]; [None] is a [ValueError].  The last check of the library
    on the host, for characters that normalise to a delimiter, concerns no
    code point below 256. *)
Definition urlsplit (url : string) : option SplitResult :=
  let url := lstrip_by c0_control_or_space url in
  let url := py_replace "010" "" (py_replace "013" "" (py_replace "009" "" url)) in
  let '(sch, url) := split_scheme url in
  let '(net, url) := match split_netloc url with
                     | Some (n, u) => (n, u)
                     | None => (EmptyString, url)
                     end in
  if xorb (str_mem "[" net) (str_mem "]" net) then None
  else if str_mem "[" net && negb (bracketed_netloc_ok net) then None
  else
    let '(url, frag) := break_at (Ascii.eqb "#") url in
    let '(url, qry) := break_at (Ascii.eqb "?") url in
    Some (mkSplit sch net url (str_tail qry) (str_tail frag)).

(** [urlparse(url).netloc.lower()] *)
Definition hostname_of (url : string) : option string :=
  (fun r => py_lower (netloc r)) <$> urlsplit url.

Definition quote_chars : string := String "034" "'".

(** The table [patterns] of [validate_url], in its order. *)
Definition youtube_patterns : list regex :=
  [ Cat (Alt (lit "youtu.be/")
             (Cat (lit "youtube.com/")
                  (Alt (Cat (lit "watch?")
                            (Cat (Opt (Cat (Star (Chr AnyChar)) (lit "&")))
                                 (lit "v=")))
                       (Cat (Alt (lit "embed") (lit "v")) (lit "/")))))
        (Plus (Chr (NoneOf ("?&" +:+ quote_chars +:+ ">"))));
    Cat (lit "youtube.com/shorts/")
        (Plus (Chr (NoneOf ("?&" +:+ quote_chars +:+ ">")))) ].

Definition instagram_patterns : list regex :=
  [ Cat (lit "instagram.com/")
        (Cat (Alt (lit "p") (lit "reel"))
             (Cat (lit "/") (Plus (Chr (NoneOf "/?")))));
    Cat (lit "instagram.com/stories/")
        (Cat (Plus (Chr (NoneOf "/?")))
             (Cat (lit "/") (Plus (Chr (NoneOf "/?"))))) ].

Definition facebook_patterns : list regex :=
  [ Cat (lit "facebook.com/")
        (Cat (Plus (Chr (NoneOf "/")))
             (Cat (lit "/videos/") (Plus (Chr (NoneOf "/?")))));
    Cat (lit "facebook.com/watch")
        (Cat (Opt (lit "/")) (Cat (lit "?v=") (Plus (Chr (NoneOf "&")))));
    Cat (lit "fb.watch/") (Plus (Chr (NoneOf "/?"))) ].

Definition twitter_patterns : list regex :=
  [ Cat (lit "twitter.com/")
        (Cat (Plus (Chr (NoneOf "/")))
             (Cat (lit "/status/") (Plus (Chr Digit))));
    Cat (lit "x.com/")
        (Cat (Plus (Chr (NoneOf "/")))
             (Cat (lit "/status/") (Plus (Chr Digit)))) ].

Definition tiktok_patterns : list regex :=
  [ Cat (lit "tiktok.com/@")
        (Cat (Plus (Chr (NoneOf "/")))
             (Cat (lit "/video/") (Plus (Chr Digit))));
    Cat (lit "tiktok.com/t/") (Plus (Chr (NoneOf "/?"))) ].

Definition reddit_patterns : list regex :=
  [ Cat (lit "reddit.com/r/")
        (Cat (Plus (Chr (NoneOf "/")))
             (Cat (lit "/comments/") (Plus (Chr (NoneOf "/")))));
    Cat (lit "v.redd.it/") (Plus (Chr (NoneOf "/?"))) ].

Record platform_config := mkConfig {
  domains : list string;
  patterns : list regex
}.

Definition platform_table : list (string * platform_config) :=
  [ ("youtube",
     mkConfig ["www.youtube.com"; "youtube.com"; "youtu.be"; "m.youtube.com"]
              youtube_patterns);
    ("instagram",
     mkConfig ["www.instagram.com"; "instagram.com"] instagram_patterns);
    ("facebook",
     mkConfig ["www.facebook.com"; "facebook.com"; "fb.com"; "fb.watch";
               "m.facebook.com"] facebook_patterns);
    ("twitter",
     mkConfig ["www.twitter.com"; "twitter.com"; "x.com"; "www.x.com"]
              twitter_patterns);
    ("tiktok",
     mkConfig ["www.tiktok.com"; "tiktok.com"; "vm.tiktok.com"] tiktok_patterns);
    ("reddit",
     mkConfig ["www.reddit.com"; "reddit.com"; "v.redd.it"] reddit_patterns) ].

(** [any(domain == hostname for domain in config['domains'])] *)
Definition any_domain (hostname : string) (ds : list string) : bool :=
  existsb (fun domain => String.eqb domain hostname) ds.

(** The inner loop over the patterns: [true] when it returns [True]. *)
Fixpoint any_pattern (ps : list regex) (url : string) : bool :=
  match ps with
  | [] => false
  | pattern :: ps' => if re_search pattern url then true else any_pattern ps' url
  end.

(** The loop over the platforms, falling through to [return False]. *)
Fixpoint validate_loop (table : list (string * platform_config))
    (hostname url : string) : bool :=
  match table with
  | [] => false
  | (_, config) :: rest =>
      if any_domain hostname (domains config) then
        if any_pattern (patterns config) url then true
        else validate_loop rest hostname url
      else validate_loop rest hostname url
  end.

(** [validate_url(url)]; [None] is the [ValueError] of [urlparse]. *)
Definition validate_url (url : string) : option bool :=
  hostname ← hostname_of url;
  Some (validate_loop platform_table hostname url).

(** [hostname in [...]] *)
Definition str_in (hostname : string) (l : list string) : bool :=
  existsb (String.eqb hostname) l.

(** [get_platform(url)]; [None] is the [ValueError] of [urlparse]. *)
Definition get_platform (url : string) : option string :=
  hostname ← hostname_of url;
  Some
    (if str_in hostname ["www.youtube.com"; "youtube.com"; "youtu.be"; "m.youtube.com"]
     then "youtube"
     else if str_in hostname ["www.instagram.com"; "instagram.com"]
     then "instagram"
     else if str_in hostname ["www.facebook.com"; "facebook.com"; "fb.com";
                              "fb.watch"; "m.facebook.com"]
     then "facebook"
     else if str_in hostname ["www.twitter.com"; "twitter.com"; "x.com"; "www.x.com"]
     then "twitter"
     else if str_in hostname ["www.tiktok.com"; "tiktok.com"; "vm.tiktok.com"]
     then "tiktok"
     else if str_in hostname ["www.reddit.com"; "reddit.com"; "v.redd.it"]
     then "reddit"
     else "unknown").

End Classifier.

(** ** Job manager and artifact retrieval: [download] and [get_file] *)

Section JobManager.

Variable bracketed_netloc_ok : string -> bool.

(** [temp_dir], made once when the module is loaded. *)
Variable temp_dir : string.

(** The result of a call that may raise; [Raises msg] carries [str(e)]. *)
Inductive outcome (A : Type) :=
  | Returns (a : A)
  | Raises (msg : string).
Arguments Returns {A} a.
Arguments Raises {A} msg.

(** A format of the provider's [info['formats']], with the keys that
    [download] reads; [raw_ext] is [None] when the key is absent. *)
Record RawFormat := mkRaw {
  raw_format_id : option string;
  raw_ext : option string;
  raw_filesize : option Z;
  raw_acodec : option string
}.

(** The dictionary that [extract_info] returns.  [info_title] is [None] when
    the key is absent and [Some None] when its value is [None]. *)
Record Info := mkInfo {
  info_id : option string;
  info_title : option (option string);
  info_thumbnail : option string;
  info_duration : option Z;
  info_formats : list RawFormat
}.

(** An entry of the table [downloads]. *)
Record Job := mkJob {
  job_url : string;
  job_format_id : string;
  output_file : string;
  job_ext : string;
  status : string
}.

(** A row of the model [Download], without the columns that the database
    fills in. *)
Record Download := mkDownload {
  video_id : option string;
  title : option string;
  format : string;
  platform : string;
  dl_filesize : option Z;
  thumbnail_url : option string;
  duration : option Z
}.

Record State := mkState {
  downloads : gmap string Job;
  history : list Download
}.

(** The options handed to [ydl.download]. *)
Record YdlOpts := mkOpts {
  outtmpl : string;
  opt_format : string;
  merge_output_format : option string;
  extract_audio : bool
}.

(** What a handler asks of the outside world, in order. *)
Inductive effect :=
  | CallUuid4
  | CallExtractInfo (url : string)
  | CallYdlDownload (opts : YdlOpts) (url : string)
  | DbCommit (row : Download)
  | CallSendFile (file : string).

Inductive response :=
  | JsonError (code : Z) (error : string)
  | JsonSuccess (download_id : string)
  | Abort (code : Z)
  | SendFile (file download_name mimetype : string)
  | Unhandled.                (* an exception that no handler catches *)

(** What the outside world answers during one call of [download]. *)
Record DownloadEnv := mkDownloadEnv {
  uuid4 : string;                  (* [str(uuid.uuid4())] *)
  extract_info : outcome Info;     (* [Raises] also when the result is unusable *)
  ydl_download : outcome unit;
  getsize : option Z;              (* the size of the output file, if it exists *)
  commit : outcome unit
}.

(** What the outside world answers during one call of [get_file]. *)
Record GetFileEnv := mkGetFileEnv {
  gf_extract_info : outcome Info;
  gf_send_file : outcome unit
}.

(** [s.endswith(c)] for one character. *)
Fixpoint py_endswith_char (c : ascii) (s : string) : bool :=
  match s with
  | EmptyString => false
  | String d EmptyString => Ascii.eqb d c
  | String _ s' => py_endswith_char c s'
  end.

(** [os.path.join(a, b)] of [posixpath]. *)
Definition os_path_join (a b : string) : string :=
  if py_startswith "/" b then b
  else if String.eqb a "" || py_endswith_char "/" a then a +:+ b
  else a +:+ "/" +:+ b.

(** [not s] for a form field. *)
Definition falsy (s : option string) : bool :=
  match s with
  | None => true
  | Some t => String.eqb t ""
  end.

Definition invalid_url_message : string :=
  "Invalid URL. We support YouTube, Instagram, Facebook, Twitter, TikTok, Reddit, and more".

(** The loop that looks for the selected format, with its [else] branch:
    the format found, [filesize] and [ext]. *)
Fixpoint find_selected (format_id : string) (fs : list RawFormat)
  : option RawFormat * option Z * string :=
  match fs with
  | [] => (None, None, "mp4")
  | f :: fs' =>
      if bool_decide (raw_format_id f = Some format_id)
      then (Some f, raw_filesize f, default "mp4" (raw_ext f))
      else find_selected format_id fs'
  end.

(** [ydl_opts] and the final [ext]. *)
Definition build_opts (output_path format_id : string)
    (selected : option RawFormat) (ext : string) : YdlOpts * string :=
  let tmpl := output_path +:+ ".%(ext)s" in
  let '(opts, ext) :=
    if String.eqb format_id "bestaudio" then
      (mkOpts tmpl "bestaudio/best" None true, "mp3")
    else if String.eqb format_id "best[ext=mp4]/best" then
      (mkOpts tmpl "best[ext=mp4]/best" (Some "mp4") false, "mp4")
    else (mkOpts tmpl format_id (Some ext) false, ext) in
  let opts :=
    if negb (String.eqb ext "mp3") then
      match selected with
      | Some f =>
          if bool_decide (raw_acodec f = Some "none") then
            mkOpts (outtmpl opts) (format_id +:+ "+bestaudio[ext=m4a]/best")
                   (Some "mp4") (extract_audio opts)
          else opts
      | None => opts
      end
    else opts in
  (opts, ext).

Definition set_status (s : string) (j : Job) : Job :=
  mkJob (job_url j) (job_format_id j) (output_file j) (job_ext j) s.

(** [download()], for the form fields [url] and [format]. *)
Definition download (form_url form_format : option string) (env : DownloadEnv)
    (st : State) : State * response * list effect :=
  if falsy form_url || falsy form_format then
    (st, JsonError 400 "URL and format are required", [])
  else
    let url := default "" form_url in
    let format_id := default "" form_format in
    match validate_url bracketed_netloc_ok url with
    | None => (st, Unhandled, [])
    | Some false => (st, JsonError 400 invalid_url_message, [])
    | Some true =>
        match get_platform bracketed_netloc_ok url with
        | None => (st, Unhandled, [])
        | Some platform =>
            let download_id := uuid4 env in
            let output_path := os_path_join temp_dir download_id in
            match extract_info env with
            | Raises msg =>
                (st, JsonError 500 msg, [CallUuid4; CallExtractInfo url])
            | Returns info =>
                let '(selected, filesize, ext) :=
                  find_selected format_id (info_formats info) in
                let '(opts, ext) := build_opts output_path format_id selected ext in
                let job := mkJob url format_id (output_path +:+ "." +:+ ext) ext
                                 "downloading" in
                let st1 := mkState (<[download_id := job]> (downloads st))
                                   (history st) in
                let effs := [CallUuid4; CallExtractInfo url;
                             CallYdlDownload opts url] in
                match ydl_download env with
                | Raises msg => (st1, JsonError 500 msg, effs)
                | Returns _ =>
                    let st2 :=
                      mkState (<[download_id := set_status "completed" job]>
                                 (downloads st1)) (history st1) in
                    let actual_file_size :=
                      match getsize env with
                      | Some n => Some n
                      | None => filesize
                      end in
                    let row :=
                      mkDownload (info_id info) (mjoin (info_title info))
                                 (format_id +:+ " (" +:+ ext +:+ ")") platform
                                 actual_file_size (info_thumbnail info)
                                 (info_duration info) in
                    match commit env with
                    | Raises msg => (st2, JsonError 500 msg, effs ++ [DbCommit row])
                    | Returns _ =>
                        (mkState (downloads st2) (history st2 ++ [row]),
                         JsonSuccess download_id, effs ++ [DbCommit row])
                    end
                end
            end
        end
    end.

(** The characters that [re.sub] leaves in the title. *)
Definition title_char (c : ascii) : bool :=
  py_isword c || py_isspace c || Ascii.eqb c "-".

(** [re.sub(CLASS, '', title).strip().replace(' ', '_')], where [CLASS] is
    the negated class of word characters, white space and the hyphen. *)
Definition sanitize_title (title : string) : string :=
  py_replace " " "_" (py_strip (str_filter title_char title)).

Definition mimetype_of (ext : string) : string :=
  (if String.eqb ext "mp3" then "audio" else "video") +:+ "/" +:+ ext.

(** [get_file(download_id)] *)
Definition get_file (download_id : string) (env : GetFileEnv) (st : State)
  : response * list effect :=
  match downloads st !! download_id with
  | None => (Abort 404, [])
  | Some download_info =>
      if negb (String.eqb (status download_info) "completed") then (Abort 400, [])
      else
        match get_platform bracketed_netloc_ok (job_url download_info) with
        | None => (Abort 500, [])
        | Some platform =>
            let effs := [CallExtractInfo (job_url download_info)] in
            match gf_extract_info env with
            | Raises _ => (Abort 500, effs)
            | Returns info =>
                match default (Some "video") (info_title info) with
                | None => (Abort 500, effs)
                | Some title =>
                    let filename :=
                      platform +:+ "_" +:+ sanitize_title title +:+ "."
                      +:+ job_ext download_info in
                    let effs := effs ++ [CallSendFile (output_file download_info)] in
                    match gf_send_file env with
                    | Raises _ => (Abort 500, effs)
                    | Returns _ =>
                        (SendFile (output_file download_info) filename
                                  (mimetype_of (job_ext download_info)), effs)
                    end
                end
            end
        end
  end.

(** The requests that touch the job table, each with the answers of the
    outside world while it is served. *)
Inductive request :=
  | PostDownload (form_url form_format : option string) (env : DownloadEnv)
  | GetFile (download_id : string) (env : GetFileEnv).

Definition handle (st : State) (req : request) : State * response :=
  match req with
  | PostDownload u f env => (download u f env st).1
  | GetFile i env => (st, (get_file i env st).1)
  end.

(** The state after a sequence of requests, served one after the other. *)
Definition run (st : State) (reqs : list request) : State :=
  fold_left (fun s r => (handle s r).1) reqs st.

(** The job id that a request draws, when it is a submission. *)
Definition drawn_id (req : request) : option string :=
  match req with
  | PostDownload _ _ env => Some (uuid4 env)
  | GetFile _ _ => None
  end.

End JobManager.

Arguments Returns {A} a.
Arguments Raises {A} msg.

(** *** The sanitised title as the specification words it

    For comparison with [sanitize_title]: the characters outside the class
    are removed, the result is trimmed, and every white space character that
    remains is turned into an underscore. *)
Definition spec_underscore (c : ascii) : ascii :=
  if py_isspace c then "_"%char else c.

Definition spec_sanitize_title (title : string) : string :=
  str_map spec_underscore (py_strip (str_filter title_char title)).

(** The other reading: a run of white space becomes one underscore. *)
Fixpoint squeeze_spaces (in_run : bool) (s : string) : string :=
  match s with
  | EmptyString => EmptyString
  | String c s' =>
      if py_isspace c then
        if in_run then squeeze_spaces true s'
        else String "_" (squeeze_spaces true s')
      else String c (squeeze_spaces false s')
  end.

Definition spec_sanitize_title_runs (title : string) : string :=
  squeeze_spaces false (py_strip (str_filter title_char title)).

(** ** Notions of the statements and proofs *)

(** The bucket that the scan of a format of height [h] stops at. *)
Definition stop_bucket (h : Z) (targets : list Z) : option Z :=
  find (fun res => (h <=? res)%Z) targets.

(** The bucket that the scan stops at for the format at reference [i]. *)
Definition bucket_at (store : list MediaFormat) (i : nat) : option Z :=
  height_at store i ≫= fun h => stop_bucket h target_resolutions.

(** [c] is [d], or it is a capital letter from A to Z and [d] is the small
    letter of the same name. *)
Definition same_letter (c d : ascii) : bool :=
  Ascii.eqb c d || (in_range 65 90 c && (code d =? code c + 32)%nat).

(** [s] is [t] up to the case of its letters from A to Z: what it means for
    a host, once lower-cased, to be the entry [t] of an allow-list. *)
Fixpoint same_up_to_case (s t : string) : bool :=
  match s, t with
  | EmptyString, EmptyString => true
  | String c s', String d t' => same_letter c d && same_up_to_case s' t'
  | _, _ => false
  end.

(** The label of a bucket: its resolution followed by the letter p. *)
Definition label_of (res : Z) : string := py_str_int res +:+ "p".

(** The label that the loop leaves on the format at reference [j]. *)
Fixpoint final_note (items : dict) (j : nat) : option string :=
  match items with
  | [] => None
  | (res, v) :: rest =>
      match final_note rest j with
      | Some n => Some n
      | None => if bool_decide (v = Some j) then Some (label_of res) else None
      end
  end.

(** A format after the relabelling loop, given the label left on it. *)
Definition renote (o : option string) (f : MediaFormat) : MediaFormat :=
  match o with
  | Some n => set_note n f
  | None => f
  end.

(** The references that the relabelling loop appends to [formats]. *)
Definition refs_of (items : dict) : list entry :=
  omap (fun x => Ref <$> x.2) items.

(** The end of the curation: the fall-back entry and the audio entry. *)
Definition close_menu (formats : list entry) : list entry :=
  (if bool_decide (formats = []) then formats ++ [Made best_quality] else formats)
  ++ [Made audio_only].

(** What the selection reads of a format: everything but its note. *)
Definition shape (f : MediaFormat) : option string * option string * string * string :=
  (vcodec f, acodec f, resolution f, ext f).

(** What [replace(' ', '_')] does to one character. *)
Definition space_to_underscore (c : ascii) : ascii :=
  if Ascii.eqb c " " then "_"%char else c.

(** A character that is no white space other than the blank. *)
Definition blank_or_solid (c : ascii) : bool :=
  negb (py_isspace c) || Ascii.eqb c " ".

(** ** Example data *)

(** A format with sound and picture in an mp4 container. *)
Definition example_format (id res : string) : MediaFormat :=
  mkFormat (Some id) "mp4" res (Some None) (Some "") (Some "avc1") (Some "mp4a").

(** The first entry of [platform_table]. *)
Definition youtube_config : platform_config :=
  mkConfig ["www.youtube.com"; "youtube.com"; "youtu.be"; "m.youtube.com"]
           youtube_patterns.

(** Answers of the outside world, and a job table with one completed and
    one pending job. *)
Definition quiet_env : DownloadEnv :=
  mkDownloadEnv "6f1c" (Raises "unreachable") (Raises "unreachable") None
                (Raises "unreachable").

Definition done_job : Job :=
  mkJob "https://youtu.be/abc123" "bestaudio" "/tmp/dl/6f1c.mp3" "mp3" "completed".

Definition pending_job : Job :=
  mkJob "https://youtu.be/abc123" "18" "/tmp/dl/77aa.mp4" "mp4" "downloading".

Definition two_jobs : State :=
  mkState (<["77aa" := pending_job]> (<["6f1c" := done_job]> ∅)) [].

Definition fetched_info : Info :=
  mkInfo (Some "abc123") (Some (Some "Cat's Video: Part #1!")) None None [].

Definition fetch_ok : GetFileEnv := mkGetFileEnv (Returns fetched_info) (Returns ()).

Definition fetch_fails : GetFileEnv :=
  mkGetFileEnv (Raises "network unreachable") (Returns ()).

Definition clip_info : Info :=
  mkInfo (Some "abc123") (Some (Some "Clip")) None (Some 12)
         [mkRaw (Some "18") (Some "mp4") (Some 4096) (Some "mp4a")].

(** A submission whose download fails, and requests that follow it. *)
Definition failing_env : DownloadEnv :=
  mkDownloadEnv "6f1c" (Returns clip_info) (Raises "HTTP Error 403: Forbidden")
                None (Returns ()).

Definition later_env : DownloadEnv :=
  mkDownloadEnv "77aa" (Returns clip_info) (Returns ()) (Some 4000) (Returns ()).

Definition later_requests : list request :=
  [ GetFile "6f1c" fetch_ok;
    PostDownload (Some "https://youtu.be/abc123") (Some "18") later_env;
    GetFile "77aa" fetch_ok ].

(** ** Display filters, database configuration, [get_video_info] and
    [get_info] *)

(** [str(n)] and [f"{n}"] for an [int]: CPython refuses to print more than
    [int_max_str_digits] digits; [None] is that [ValueError]. *)
Definition py_str_int_checked (n : Z) : option string :=
  if (String.length (py_str_int (Z.abs n)) <=? int_max_str_digits)%nat
  then Some (py_str_int n) else None.

(** [f"{n:02d}"]: at least two characters, zeros put in front. *)
Definition py_format_02d (n : Z) : option string :=
  s ← py_str_int_checked n;
  Some (if (String.length s <? 2)%nat then "0" +:+ s else s).

(** [format_duration(seconds)], for a value of the integer column
    [duration], [None] when it is null.  The result is [None] when printing
    raises. *)
Definition format_duration (seconds : option Z) : option string :=
  match seconds with
  | None => Some "Unknown"
  | Some seconds =>
      if seconds =? 0 then Some "Unknown"
      else
        let hours := seconds / 3600 in
        let minutes := (seconds mod 3600) / 60 in
        let seconds := seconds mod 60 in
        if 0 <? hours then
          h ← py_str_int_checked hours;
          m ← py_format_02d minutes;
          s ← py_format_02d seconds;
          Some (h +:+ ":" +:+ m +:+ ":" +:+ s)
        else
          m ← py_str_int_checked minutes;
          s ← py_format_02d seconds;
          Some (m +:+ ":" +:+ s)
  end.








(** [s[n:]] *)
Fixpoint str_drop (n : nat) (s : string) : string :=
  match n, s with
  | O, _ => s
  | S n', String _ s' => str_drop n' s'
  | S _, EmptyString => EmptyString
  end.

(** [s.replace(old, new, 1)]: the leftmost occurrence only. *)
Fixpoint py_replace_first (old new s : string) : string :=
  if py_startswith old s then new +:+ str_drop (String.length old) s
  else match s with
       | EmptyString => EmptyString
       | String c s' => String c (py_replace_first old new s')
       end.

(** The value given to [SQLALCHEMY_DATABASE_URI], from the environment
    variable [DATABASE_URL], [None] when it is not set. *)
Definition database_uri (database_url : option string) : string :=
  match database_url with
  | Some url =>
      if String.eqb url "" then "sqlite:///youtube_downloader.db"
      else if py_startswith "postgres://" url
           then py_replace_first "postgres://" "postgresql://" url
           else url
  | None => "sqlite:///youtube_downloader.db"
  end.

(** A format of the provider's [info['formats']], with the keys that
    [get_video_info] reads.  Where the code gives [get] a default, an absent
    key ([None]) and a key holding [None] ([Some None]) are told apart. *)
Record ProviderFormat := mkProvider {
  pf_format_id : option string;
  pf_ext : option string;
  pf_width : option (option Z);
  pf_height : option (option Z);
  pf_filesize : option Z;
  pf_format_note : option (option string);
  pf_vcodec : option (option string);
  pf_acodec : option (option string)
}.

Record ProviderInfo := mkProviderInfo {
  pi_title : option string;
  pi_thumbnail : option string;
  pi_duration : option Z;
  pi_formats : list ProviderFormat
}.

(** What [ydl.extract_info] does in [get_video_info]: it returns, raises the
    [DownloadError] that the function catches, or raises something else. *)
Inductive extract_result :=
  | ExtractOk (info : ProviderInfo)
  | ExtractDownloadError (msg : string)
  | ExtractOtherError (msg : string).

(** [format.get(key, default)] *)
Definition get_or {A} (d : A) (v : option (option A)) : option A :=
  match v with
  | None => Some d
  | Some x => x
  end.

(** The width or the height inside the f-string of [resolution]. *)
Definition fstring_dim (v : option (option Z)) : option string :=
  match v with
  | None => Some "unknown"
  | Some None => Some "None"
  | Some (Some n) => py_str_int_checked n
  end.

(** The condition of the list comprehension. *)
Definition listed (pf : ProviderFormat) : bool :=
  match pf_ext pf with
  | Some e =>
      bool_decide (e ∈ ["mp4"; "webm"; "mkv"; "m4a"; "mp3"])
      && negb (bool_decide (mjoin (pf_format_note pf) = Some "storyboard"))
  | None => false
  end.

(** The dictionary built for one format; [None] when an f-string raises. *)
Definition info_format (pf : ProviderFormat) : option MediaFormat :=
  w ← fstring_dim (pf_width pf);
  h ← fstring_dim (pf_height pf);
  Some {| format_id := pf_format_id pf;
          ext := default "" (pf_ext pf);
          resolution := w +:+ "x" +:+ h;
          filesize := Some (pf_filesize pf);
          format_note := get_or "" (pf_format_note pf);
          vcodec := get_or "unknown" (pf_vcodec pf);
          acodec := get_or "unknown" (pf_acodec pf) |}.

(** The list comprehension; [None] when building a dictionary raises. *)
Fixpoint info_formats_of (pfs : list ProviderFormat) : option (list MediaFormat) :=
  match pfs with
  | [] => Some []
  | pf :: rest =>
      if listed pf then
        f ← info_format pf; fs ← info_formats_of rest; Some (f :: fs)
      else info_formats_of rest
  end.

Record VideoInfo := mkVideoInfo {
  vi_title : option string;
  vi_thumbnail : option string;
  vi_duration : option Z;
  vi_formats : list MediaFormat
}.

Definition int_str_limit_message : string :=
  "Exceeds the limit (4300 digits) for integer string conversion; use sys.set_int_max_str_digits() to increase the limit".

(** [get_video_info(url)], given what [extract_info] does: the dictionary,
    [None], or an exception that goes through. *)
Definition get_video_info (r : extract_result) : outcome (option VideoInfo) :=
  match r with
  | ExtractOk info =>
      match info_formats_of (pi_formats info) with
      | Some fs =>
          Returns (Some (mkVideoInfo (pi_title info) (pi_thumbnail info)
                                     (pi_duration info) fs))
      | None => Raises int_str_limit_message
      end
  | ExtractDownloadError _ => Returns None
  | ExtractOtherError msg => Raises msg
  end.

(** The answers of [get_info]. *)
Inductive info_response :=
  | InfoError (code : Z) (error : string)
  | InfoOk (title thumbnail : option string) (duration : option Z)
           (platform : string) (formats : list MediaFormat)
  | InfoUnhandled.

Section InfoHandler.

Variable bracketed_netloc_ok : string -> bool.

(** [get_info()], for the form field [url] and what [extract_info] does. *)
Definition get_info (form_url : option string) (r : extract_result)
  : info_response :=
  if falsy form_url then InfoError 400 "No URL provided"
  else
    let url := default "" form_url in
    match validate_url bracketed_netloc_ok url with
    | None => InfoUnhandled
    | Some false => InfoError 400 invalid_url_message
    | Some true =>
        match get_platform bracketed_netloc_ok url with
        | None => InfoError 500 "Invalid IPv6 URL"
        | Some platform =>
            match get_video_info r with
            | Raises msg => InfoError 500 msg
            | Returns None =>
                InfoError 400 "Could not retrieve video information"
            | Returns (Some video_info) =>
                InfoOk (vi_title video_info) (vi_thumbnail video_info)
                       (vi_duration video_info) platform
                       (curate (vi_formats video_info)).2
            end
        end
    end.

End InfoHandler.

(** [sub in s] *)
Fixpoint str_contains (sub s : string) : bool :=
  py_startswith sub s ||
  match s with
  | EmptyString => false
  | String _ s' => str_contains sub s'
  end.

(** ** Notions of the further statements and proofs *)

(** The value of a decimal numeral read from its first digit on, [acc] being
    the value of the digits read before it, and its number of digits. *)
Fixpoint uint_value (acc : Z) (d : uint) : Z :=
  match d with
  | Nil => acc
  | D0 d => uint_value (10 * acc) d
  | D1 d => uint_value (10 * acc + 1) d
  | D2 d => uint_value (10 * acc + 2) d
  | D3 d => uint_value (10 * acc + 3) d
  | D4 d => uint_value (10 * acc + 4) d
  | D5 d => uint_value (10 * acc + 5) d
  | D6 d => uint_value (10 * acc + 6) d
  | D7 d => uint_value (10 * acc + 7) d
  | D8 d => uint_value (10 * acc + 8) d
  | D9 d => uint_value (10 * acc + 9) d
  end.

Fixpoint uint_len (d : uint) : nat :=
  match d with
  | Nil => O
  | D0 d | D1 d | D2 d | D3 d | D4 d | D5 d | D6 d | D7 d | D8 d | D9 d =>
      S (uint_len d)
  end.

(** The reference that bucket [res] ends up with. *)
Definition holder (store : list MediaFormat) (res : Z) : option nat :=
  find (fits_at store res) (av_formats store).

(** The menu entry of bucket [res]: its format, relabelled. *)
Definition bucket_entry (store : list MediaFormat) (res : Z)
  : option MediaFormat :=
  i ← holder store res; set_note (label_of res) <$> store !! i.

Definition bucket_entries (store : list MediaFormat) : list MediaFormat :=
  omap (bucket_entry store) target_resolutions.

(** The buckets with the notes that the menu shows for them. *)
Definition bucket_labels : list (Z * string) :=
  [(144, "144p"); (240, "240p"); (360, "360p"); (480, "480p");
   (720, "720p"); (1080, "1080p"); (1440, "1440p"); (2160, "2160p")].

(** The six platform tags. *)
Definition platform_tags : list string :=
  ["youtube"; "instagram"; "facebook"; "twitter"; "tiktok"; "reddit"].

(** The literal text that the patterns of a platform start with. *)
Definition required_text (name : string) : list string :=
  if String.eqb name "youtube" then ["youtu.be/"; "youtube.com/"]
  else if String.eqb name "instagram" then ["instagram.com/"]
  else if String.eqb name "facebook" then ["facebook.com/"; "fb.watch/"]
  else if String.eqb name "twitter" then ["twitter.com/"; "x.com/"]
  else if String.eqb name "tiktok" then ["tiktok.com/"]
  else if String.eqb name "reddit" then ["reddit.com/r/"; "v.redd.it/"]
  else [].

(** The characters of a printed integer. *)
Definition digit_or_minus (c : ascii) : bool :=
  is_ascii_digit c || Ascii.eqb c "-".

(** Reads a text [H:MM:SS] or [M:SS] as a number of seconds. *)
Definition parse_clock (text : string) : option Z :=
  match py_split ":" text with
  | [m; s] => m' ← py_int m; s' ← py_int s; Some (60 * m' + s')
  | [h; m; s] =>
      h' ← py_int h; m' ← py_int m; s' ← py_int s;
      Some (3600 * h' + 60 * m' + s')
  | _ => None
  end.

(** The characters that a sanitised title can hold. *)
Definition sanitized_char (c : ascii) : bool :=
  title_char c && negb (Ascii.eqb c " ").

Section JobNotions.

Variable bracketed_netloc_ok : string -> bool.
Variable temp_dir : string.

(** What holds of every entry of the job table. *)
Definition job_ok (id : string) (j : Job) : Prop :=
  (status j = "downloading" ∨ status j = "completed")
  ∧ output_file j = os_path_join temp_dir id +:+ "." +:+ job_ext j
  ∧ validate_url bracketed_netloc_ok (job_url j) = Some true
  ∧ job_format_id j <> "".

End JobNotions.

(** ** Further example data *)

(** A provider format with sound and picture, 640 by 360. *)
Definition provider_360 : ProviderFormat :=
  mkProvider (Some "18") (Some "mp4") (Some (Some 640)) (Some (Some 360))
             (Some 4096) (Some (Some "360p")) (Some (Some "avc1"))
             (Some (Some "mp4a")).

(** A storyboard, which the list comprehension drops. *)
Definition provider_storyboard : ProviderFormat :=
  mkProvider (Some "sb0") (Some "mhtml") (Some (Some 48)) (Some (Some 27))
             None (Some (Some "storyboard")) (Some (Some "none"))
             (Some (Some "none")).

Definition provider_info : ProviderInfo :=
  mkProviderInfo (Some "Clip") None (Some 12) [provider_storyboard; provider_360].

(** A submission that goes through, and a fetch that follows it. *)
Definition success_env : DownloadEnv :=
  mkDownloadEnv "6f1c" (Returns clip_info) (Returns ()) (Some 4000) (Returns ()).

(** A video-only format in a webm container. *)
Definition video_only_info : Info :=
  mkInfo (Some "abc123") (Some (Some "Clip")) None (Some 12)
         [mkRaw (Some "248") (Some "webm") (Some 9000) (Some "none")].

Definition video_only_env : DownloadEnv :=
  mkDownloadEnv "9d2e" (Returns video_only_info) (Returns ()) None (Returns ()).

(** * Properties *)

(** ** Strings and patterns *)

Section RegexFacts.

Lemma append_cons (c : ascii) (s t : string) :
  String c s +:+ t = String c (s +:+ t).
Proof. reflexivity. Qed.

Lemma append_nil (t : string) : "" +:+ t = t.
Proof. reflexivity. Qed.

Lemma append_empty_r (s : string) : s +:+ "" = s.
Proof. induction s as [|c s IH]; [reflexivity|]. rewrite append_cons, IH. reflexivity. Qed.

Lemma append_assoc (s t u : string) : (s +:+ t) +:+ u = s +:+ (t +:+ u).
Proof. induction s as [|c s IH]; [reflexivity|]. rewrite !append_cons, IH. reflexivity. Qed.

Lemma append_eq_empty (s t : string) : s +:+ t = "" -> s = "" ∧ t = "".
Proof. destruct s; [auto | discriminate]. Qed.

Lemma matches_void s : ~ matches Void s.
Proof. intros H. inversion H. Qed.

(** [nullable] tells whether the empty word matches. *)
Lemma nullable_matches r : nullable r = true <-> matches r "".
Proof.
  split.
  - induction r; cbn [nullable]; intros H; try discriminate.
    + constructor.
    + apply andb_true_iff in H as [H1 H2].
      change "" with ("" +:+ ""). constructor; auto.
    + apply orb_true_iff in H as [H|H]; [apply m_alt_l | apply m_alt_r]; auto.
    + constructor.
  - intros H. remember "" as s eqn:Hs. induction H; cbn [nullable]; try reflexivity.
    + discriminate.
    + apply append_eq_empty in Hs as [-> ->]. rewrite IHmatches1, IHmatches2; auto.
    + rewrite IHmatches; auto.
    + rewrite IHmatches; auto. apply orb_true_r.
Qed.

(** The simplifying constructors [cat] and [alt] keep the words. *)
Lemma cat_matches r1 r2 s : matches (cat r1 r2) s <-> matches (Cat r1 r2) s.
Proof.
  split.
  - intros H. destruct r1, r2; cbn [cat] in H;
      try exact H; try (exfalso; exact (matches_void _ H));
      (rewrite <- (append_nil s); apply m_cat; [apply m_eps | exact H]).
  - intros H. inversion H as [| |? ? s1 s2 H1 H2| | | |]; subst.
    destruct r1, r2; cbn [cat];
      try exact H; try (exfalso; eapply matches_void; eassumption);
      inversion H1; subst; exact H2.
Qed.

Lemma alt_matches r1 r2 s : matches (alt r1 r2) s <-> matches (Alt r1 r2) s.
Proof.
  split.
  - intros H. destruct r1, r2; cbn [alt] in H;
      try exact H; try (exfalso; exact (matches_void _ H));
      first [ apply m_alt_l; exact H | apply m_alt_r; exact H ].
  - intros H. inversion H; subst;
      destruct r1, r2; cbn [alt];
      try exact H; try (exfalso; eapply matches_void; eassumption); assumption.
Qed.

(** A word of a starred pattern that starts with [c] starts with a word of the
    pattern that starts with [c]. *)
Lemma star_cons_inv r c s :
  matches (Star r) (String c s) ->
  exists s1 s2, s = s1 +:+ s2 ∧ matches r (String c s1) ∧ matches (Star r) s2.
Proof.
  intros H. remember (Star r) as r' eqn:Hr. remember (String c s) as w eqn:Hw.
  revert s Hw.
  induction H as [| | | | | |r0 w1 w2 H1 _ H2 IH2]; intros s' Hw; try discriminate.
  injection Hr as ->. destruct w1 as [|d w1].
  - rewrite append_nil in Hw. apply IH2; auto.
  - rewrite append_cons in Hw. injection Hw as -> <-. eauto.
Qed.

(** The derivative is correct. *)
Lemma deriv_matches c r : forall s, matches (deriv c r) s <-> matches r (String c s).
Proof.
  induction r as [| |cs|r1 IH1 r2 IH2|r1 IH1 r2 IH2|r IH]; intros s; cbn [deriv].
  - split; intros H; inversion H.
  - split; intros H; inversion H.
  - destruct (charset_mem c cs) eqn:Hc; split; intros H.
    + inversion H; subst. constructor. exact Hc.
    + inversion H; subst. constructor.
    + inversion H.
    + inversion H; subst. congruence.
  - assert (matches (cat (deriv c r1) r2) s
            <-> exists s1 s2, s = s1 +:+ s2 ∧ matches r1 (String c s1) ∧ matches r2 s2)
      as Hcat.
    { rewrite cat_matches. split.
      - intros H. inversion H; subst. eexists _, _. split; [reflexivity|].
        split; [apply IH1; assumption | assumption].
      - intros (s1 & s2 & -> & H1 & H2). constructor; [apply IH1; exact H1 | exact H2]. }
    assert (matches (Cat r1 r2) (String c s)
            <-> (exists s1 s2, s = s1 +:+ s2 ∧ matches r1 (String c s1) ∧ matches r2 s2)
                ∨ (matches r1 "" ∧ matches r2 (String c s))) as Hinv.
    { split.
      - intros H. inversion H as [| |? ? s1 s2 H1 H2 Hr Hw| | | |]; subst.
        destruct s1 as [|d s1].
        + rewrite append_nil in Hw. subst s2. right. auto.
        + rewrite append_cons in Hw. injection Hw as -> <-. left. eauto.
      - intros [(s1 & s2 & -> & H1 & H2)|[H1 H2]].
        + rewrite <- append_cons. constructor; assumption.
        + rewrite <- (append_nil (String c s)). constructor; assumption. }
    rewrite Hinv. destruct (nullable r1) eqn:Hn.
    + rewrite alt_matches. split.
      * intros H. inversion H; subst.
        -- left. apply Hcat. assumption.
        -- right. split; [apply nullable_matches, Hn | apply IH2; assumption].
      * intros [H|[_ H]].
        -- apply m_alt_l, Hcat, H.
        -- apply m_alt_r, IH2, H.
    + rewrite Hcat. split; [auto|]. intros [H|[H _]]; [exact H|].
      apply nullable_matches in H. congruence.
  - rewrite alt_matches. split.
    + intros H. inversion H; subst; [apply m_alt_l, IH1 | apply m_alt_r, IH2]; assumption.
    + intros H. inversion H; subst; [apply m_alt_l, IH1 | apply m_alt_r, IH2]; assumption.
  - rewrite cat_matches. split.
    + intros H. inversion H; subst. rewrite <- append_cons.
      apply m_star_cons; [apply IH; assumption | assumption].
    + intros (s1 & s2 & -> & H1 & H2)%star_cons_inv.
      constructor; [apply IH; exact H1 | exact H2].
Qed.

(** [match_prefix] holds exactly when a prefix of the string matches. *)
Lemma match_prefix_correct r s :
  match_prefix r s = true <-> exists s1 s2, s = s1 +:+ s2 ∧ matches r s1.
Proof.
  revert r. induction s as [|c s IH]; intros r; cbn [match_prefix].
  - rewrite orb_false_r, nullable_matches. split.
    + intros H. exists "", "". auto.
    + intros (s1 & s2 & Hs & H). symmetry in Hs.
      apply append_eq_empty in Hs as [-> _]. exact H.
  - rewrite orb_true_iff, nullable_matches, IH. split.
    + intros [H|(s1 & s2 & -> & H)].
      * exists "", (String c s). auto.
      * exists (String c s1), s2. split; [reflexivity | apply deriv_matches, H].
    + intros (s1 & s2 & Hs & H). destruct s1 as [|d s1].
      * left. exact H.
      * rewrite append_cons in Hs. injection Hs as <- ->.
        right. exists s1, s2. split; [reflexivity | apply deriv_matches, H].
Qed.

(** [re_search] holds exactly when a substring of the string matches. *)
Lemma re_search_correct r s :
  re_search r s = true
  <-> exists s0 s1 s2, s = s0 +:+ s1 +:+ s2 ∧ matches r s1.
Proof.
  induction s as [|c s IH]; cbn [re_search].
  - rewrite orb_false_r, match_prefix_correct. split.
    + intros (s1 & s2 & Hs & H). exists "", s1, s2. auto.
    + intros (s0 & s1 & s2 & Hs & H). symmetry in Hs.
      apply append_eq_empty in Hs as [-> Hs]. exists s1, s2. auto.
  - rewrite orb_true_iff, match_prefix_correct, IH. split.
    + intros [(s1 & s2 & Hs & H)|(s0 & s1 & s2 & -> & H)].
      * exists "", s1, s2. auto.
      * exists (String c s0), s1, s2. auto.
    + intros (s0 & s1 & s2 & Hs & H). destruct s0 as [|d s0].
      * left. exists s1, s2. auto.
      * rewrite append_cons in Hs. injection Hs as <- ->.
        right. exists s0, s1, s2. auto.
Qed.

(** A run of literal characters matches itself only. *)
Lemma lit_matches s t : matches (lit s) t <-> t = s.
Proof.
  revert t. induction s as [|c s IH]; intros t; cbn [lit].
  - split; [intros H; inversion H; reflexivity | intros ->; constructor].
  - destruct s as [|d s].
    + split; [intros H; inversion H as [|? ? Hc| | | | |]; subst|intros ->].
      * cbn [charset_mem] in Hc. apply Ascii.eqb_eq in Hc. subst. reflexivity.
      * constructor. apply Ascii.eqb_refl.
    + split.
      * intros H. inversion H as [| |? ? s1 s2 H1 H2| | | |]; subst.
        inversion H1 as [|? ? Hc| | | | |]; subst.
        cbn [charset_mem] in Hc. apply Ascii.eqb_eq in Hc. subst.
        apply IH in H2. subst. reflexivity.
      * intros ->. change (String c (String d s)) with (String c "" +:+ String d s).
        constructor; [constructor; apply Ascii.eqb_refl | apply IH; reflexivity].
Qed.

End RegexFacts.

(** ** The format resolver *)

Section ResolverFacts.

Implicit Types (store : list MediaFormat) (rf d : dict) (f : MediaFormat).

Lemma dict_get_set k k' v d :
  dict_get k (dict_set k' v d) = if (k =? k')%Z then Some v else dict_get k d.
Proof.
  induction d as [|[k0 v0] d IH]; simpl.
  - destruct (k =? k')%Z; reflexivity.
  - destruct (Z.eqb_spec k' k0) as [->|Hne]; simpl.
    + destruct (k =? k0)%Z; reflexivity.
    + rewrite IH. destruct (Z.eqb_spec k k0) as [->|]; [|reflexivity].
      destruct (Z.eqb_spec k0 k'); [congruence|reflexivity].
Qed.

Lemma scan_targets_get h i targets rf res :
  dict_get res (scan_targets h i targets rf) =
  if bool_decide (stop_bucket h targets = Some res ∧ dict_get res rf = Some None)
  then Some (Some i) else dict_get res rf.
Proof.
  induction targets as [|r targets IH]; cbn [scan_targets].
  - rewrite bool_decide_eq_false_2; [reflexivity | intros [? _]; discriminate].
  - unfold stop_bucket in *. cbn [find]. destruct (h <=? r)%Z.
    + clear IH. case_bool_decide as Hd.
      * destruct Hd as [[= ->] Hg]. rewrite Hg, dict_get_set, Z.eqb_refl. reflexivity.
      * destruct (dict_get r rf) as [[j|]|] eqn:Hr; try reflexivity.
        rewrite dict_get_set. destruct (Z.eqb_spec res r) as [->|]; [|reflexivity].
        exfalso. apply Hd. auto.
    + apply IH.
Qed.

Lemma assign_format_get store rf i res :
  dict_get res (assign_format store rf i) =
  if bool_decide (bucket_at store i = Some res ∧ dict_get res rf = Some None)
  then Some (Some i) else dict_get res rf.
Proof.
  unfold assign_format, bucket_at, height_at.
  destruct (store !! i) as [f|]; cbn [mbind option_bind].
  - destruct (height_of f) as [h|]; cbn [mbind option_bind].
    + apply scan_targets_get.
    + rewrite bool_decide_eq_false_2; [reflexivity | intros [? _]; discriminate].
  - rewrite bool_decide_eq_false_2; [reflexivity | intros [? _]; discriminate].
Qed.

Lemma assign_fold_get store l rf res :
  dict_get res (fold_left (assign_format store) l rf) =
  match dict_get res rf with
  | Some None =>
      Some (find (fun i => bool_decide (bucket_at store i = Some res)) l)
  | other => other
  end.
Proof.
  revert rf. induction l as [|i l IH]; intros rf; cbn [fold_left find].
  - destruct (dict_get res rf) as [[?|]|]; reflexivity.
  - rewrite IH, assign_format_get.
    destruct (dict_get res rf) as [[j|]|] eqn:Hg.
    + rewrite bool_decide_eq_false_2; [reflexivity | intros [_ ?]; discriminate].
    + case_bool_decide as Hd.
      * destruct Hd as [Hb _]. rewrite bool_decide_eq_true_2 by exact Hb. reflexivity.
      * rewrite bool_decide_eq_false_2; [reflexivity | intros Hb; apply Hd; auto].
    + rewrite bool_decide_eq_false_2; [reflexivity | intros [_ ?]; discriminate].
Qed.

Lemma target_cases res :
  res ∈ target_resolutions ->
  res = 144 ∨ res = 240 ∨ res = 360 ∨ res = 480 ∨ res = 720 ∨ res = 1080
  ∨ res = 1440 ∨ res = 2160.
Proof. unfold target_resolutions. rewrite !elem_of_cons, elem_of_nil. tauto. Qed.

Ltac settle_comparisons :=
  repeat match goal with
         | |- context [(?a <=? ?b)%Z] =>
             first [ rewrite (Zle_imp_le_bool a b) by lia
                   | rewrite (proj2 (Z.leb_gt a b)) by lia
                   | destruct (Z.leb_spec a b) ]
         | |- context [(?a <? ?b)%Z] =>
             first [ rewrite (proj2 (Z.ltb_lt a b)) by lia
                   | rewrite (proj2 (Z.ltb_ge a b)) by lia
                   | destruct (Z.ltb_spec a b) ]
         end.

Lemma stop_bucket_fits res h :
  res ∈ target_resolutions ->
  bool_decide (stop_bucket h target_resolutions = Some res) = fits res h.
Proof.
  intros Hin. apply target_cases in Hin.
  unfold stop_bucket, fits, target_resolutions.
  cbn [find forallb].
  repeat destruct Hin as [Hin|Hin]; subst res; settle_comparisons;
    cbn [andb orb];
    (apply bool_decide_eq_true_2 + apply bool_decide_eq_false_2);
    congruence.
Qed.

Lemma find_pointwise {A} (p q : A -> bool) (l : list A) :
  (forall x, p x = q x) -> find p l = find q l.
Proof.
  intros Hpq. induction l as [|x l IH]; cbn [find]; [reflexivity|].
  rewrite Hpq, IH. reflexivity.
Qed.

Lemma init_get res :
  res ∈ target_resolutions -> dict_get res resolution_formats_init = Some None.
Proof.
  intros Hin. apply target_cases in Hin.
  repeat destruct Hin as [Hin|Hin]; subst res; reflexivity.
Qed.

Lemma bucket_at_fits store res i :
  res ∈ target_resolutions ->
  bool_decide (bucket_at store i = Some res) = fits_at store res i.
Proof.
  intros Hin. unfold bucket_at, fits_at.
  destruct (height_at store i) as [h|]; cbn [mbind option_bind].
  - apply stop_bucket_fits, Hin.
  - apply bool_decide_eq_false_2. discriminate.
Qed.

Lemma assign_all_get store res :
  res ∈ target_resolutions ->
  dict_get res (assign_all store)
  = Some (find (fits_at store res) (av_formats store)).
Proof.
  intros Hin. unfold assign_all.
  rewrite assign_fold_get, (init_get res Hin). f_equal.
  apply find_pointwise. intros i. apply bucket_at_fits, Hin.
Qed.

Lemma fits_meaning res h :
  fits res h = true
  <-> (h <= res ∧ forall r, r ∈ target_resolutions -> r < res -> r < h).
Proof.
  unfold fits. rewrite andb_true_iff, forallb_forall, Z.leb_le.
  split; intros [Hle Hall]; (split; [exact Hle|]).
  - intros r Hr Hlt. apply list_elem_of_In in Hr.
    specialize (Hall r Hr). rewrite orb_true_iff, Z.ltb_lt, Z.leb_le in Hall. lia.
  - intros r Hr. apply list_elem_of_In in Hr.
    rewrite orb_true_iff, Z.ltb_lt, Z.leb_le.
    destruct (Z.lt_ge_cases r res); [left; auto | right; lia].
Qed.

Lemma fits_unique res res' h :
  res ∈ target_resolutions -> res' ∈ target_resolutions ->
  fits res h = true -> fits res' h = true -> res = res'.
Proof.
  intros Hin Hin' [H1 H2]%fits_meaning [H1' H2']%fits_meaning.
  destruct (Z.lt_trichotomy res res') as [Hlt|[Heq|Hgt]]; [|exact Heq|].
  - specialize (H2' res Hin Hlt). lia.
  - specialize (H2 res' Hin' Hgt). lia.
Qed.

Lemma set_note_set_note n m f : set_note n (set_note m f) = set_note n f.
Proof. reflexivity. Qed.

Lemma renote_idem o f : renote o (renote o f) = renote o f.
Proof. destruct o; reflexivity. Qed.

Lemma label_all_store items : forall store acc j,
  (label_all items store acc).1 !! j = renote (final_note items j) <$> store !! j.
Proof.
  induction items as [|[res [i|]] items IH]; intros store acc j;
    cbn [label_all final_note].
  - cbn [fst]. destruct (store !! j); reflexivity.
  - rewrite IH. fold (label_of res). rewrite list_lookup_alter.
    case_decide as Hij.
    + subst i. rewrite bool_decide_eq_true_2 by reflexivity.
      destruct (store !! j) as [f|]; [|reflexivity]. cbn [fmap option_fmap option_map].
      destruct (final_note items j); reflexivity.
    + rewrite bool_decide_eq_false_2 by congruence.
      destruct (final_note items j); reflexivity.
  - rewrite IH. rewrite bool_decide_eq_false_2 by discriminate.
    destruct (final_note items j); reflexivity.
Qed.

Lemma label_all_entries items : forall store acc,
  (label_all items store acc).2 = acc ++ refs_of items.
Proof.
  induction items as [|[res [i|]] items IH]; intros store acc;
    cbn [label_all].
  - symmetry. apply app_nil_r.
  - rewrite IH, <- app_assoc. reflexivity.
  - apply IH.
Qed.

Lemma curate_entries_eq store :
  curate_entries store =
  ((label_all (sorted_items (assign_all store)) store []).1,
   close_menu (refs_of (sorted_items (assign_all store)))).
Proof.
  unfold curate_entries.
  pose proof (label_all_entries (sorted_items (assign_all store)) store []) as He.
  destruct (label_all (sorted_items (assign_all store)) store []) as [s' fs].
  cbn [fst snd] in *. subst fs. reflexivity.
Qed.

Lemma shape_renote o f : shape (renote o f) = shape f.
Proof. destruct o; reflexivity. Qed.

Lemma av_eligible_shape f g : shape f = shape g -> av_eligible f = av_eligible g.
Proof.
  unfold shape, av_eligible, has_video, has_audio.
  intros [= -> -> -> ->]. reflexivity.
Qed.

Lemma height_of_shape f g : shape f = shape g -> height_of f = height_of g.
Proof. unfold shape, height_of. intros [= _ _ -> _]. reflexivity. Qed.

Lemma collect_av_shape s : forall s' i,
  shape <$> s = shape <$> s' -> collect_av i s = collect_av i s'.
Proof.
  induction s as [|f s IH]; intros [|g s'] i Heq; try discriminate; [reflexivity|].
  cbn [fmap list_fmap] in Heq.
  assert (shape f = shape g) as Hfg by congruence.
  assert (shape <$> s = shape <$> s') as Hrest by (cbn [fmap]; congruence).
  cbn [collect_av]. rewrite (av_eligible_shape f g Hfg), (IH s' (S i) Hrest).
  reflexivity.
Qed.

Lemma assign_format_shape s s' rf i :
  shape <$> s = shape <$> s' -> assign_format s rf i = assign_format s' rf i.
Proof.
  intros Heq. unfold assign_format.
  assert (shape <$> s !! i = shape <$> s' !! i) as Hi
    by (rewrite <- !list_lookup_fmap, Heq; reflexivity).
  destruct (s !! i) as [f|], (s' !! i) as [g|]; try discriminate; [|reflexivity].
  assert (shape f = shape g) as Hs by (cbn [fmap option_fmap option_map] in Hi; congruence).
  rewrite (height_of_shape f g Hs). reflexivity.
Qed.

Lemma assign_all_shape s s' :
  shape <$> s = shape <$> s' -> assign_all s = assign_all s'.
Proof.
  intros Heq. unfold assign_all, av_formats.
  rewrite (collect_av_shape s s' 0 Heq).
  generalize (collect_av 0 s') resolution_formats_init.
  intros l. induction l as [|i l IH]; intros rf; cbn [fold_left]; [reflexivity|].
  rewrite (assign_format_shape s s' rf i Heq). apply IH.
Qed.

Lemma label_all_shape items store :
  shape <$> (label_all items store []).1 = shape <$> store.
Proof.
  apply list_eq. intros j.
  rewrite !list_lookup_fmap, label_all_store.
  destruct (store !! j) as [f|]; [|reflexivity].
  cbn [fmap option_fmap option_map]. rewrite shape_renote. reflexivity.
Qed.

Lemma label_all_twice items store :
  (label_all items (label_all items store []).1 []).1
  = (label_all items store []).1.
Proof.
  apply list_eq. intros j. rewrite !label_all_store.
  destruct (store !! j) as [f|]; [|reflexivity].
  cbn [fmap option_fmap option_map]. rewrite renote_idem. reflexivity.
Qed.

Lemma av_eligible_spec f :
  av_eligible f = true
  <-> vcodec f ≠ Some "none" ∧ acodec f ≠ Some "none"
      ∧ resolution f ≠ "unknownxunknown" ∧ (ext f = "mp4" ∨ ext f = "webm").
Proof.
  unfold av_eligible, has_video, has_audio.
  repeat case_bool_decide; cbn [negb andb orb]; split;
    try discriminate; try tauto.
  - intros _. repeat split; try assumption.
    match goal with H : ext f ∈ _ |- _ =>
      rewrite !elem_of_cons, elem_of_nil in H; tauto end.
  - intros (_ & _ & _ & He).
    match goal with H : ¬ ext f ∈ _ |- _ =>
      exfalso; apply H; rewrite !elem_of_cons; tauto end.
Qed.

Lemma collect_av_none s : forall i,
  Forall (fun f => av_eligible f = false) s -> collect_av i s = [].
Proof.
  induction s as [|f s IH]; intros i Hall; [reflexivity|].
  inversion Hall as [|? ? Hf Hs]; subst. cbn [collect_av]. rewrite Hf. auto.
Qed.

End ResolverFacts.

(** C1 (as stated, refuted).  With two eligible formats of heights 100 and
    120 in this order, the first one takes bucket 144; the second one is at
    most 240 high and claimed by no smaller bucket, so the specification's
    rule gives it bucket 240, but the code leaves bucket 240 empty. *)
Lemma bucket_assignment_counterexample :
  let store := [example_format "A" "100x100"; example_format "B" "120x120"] in
  av_formats store = [0%nat; 1%nat]
  ∧ height_at store 1 = Some 120
  ∧ dict_get 144 (assign_all store) = Some (Some 0%nat)
  ∧ dict_get 240 (spec_assign_all store) = Some (Some 1%nat)
  ∧ dict_get 240 (assign_all store) = Some None
  ∧ assign_all store ≠ spec_assign_all store.
Proof. vm_compute. repeat split; discriminate. Qed.

(** C1 (amended).  Every bucket is assigned the first format, in provider
    order, among the eligible formats whose height is at most the bucket and
    above every smaller bucket, that is, whose smallest qualifying bucket it
    is; it stays empty when there is none.  So a bucket holds at most one
    format, and a format is held by at most one bucket: a format whose
    smallest qualifying bucket is taken is dropped, not passed on to a larger
    bucket. *)
Theorem bucket_assignment_closest (store : list MediaFormat) (res : Z) :
  res ∈ target_resolutions ->
  dict_get res (assign_all store)
  = Some (find (fits_at store res) (av_formats store))
  ∧ (forall h, fits res h = true
       <-> (h <= res ∧ forall r, r ∈ target_resolutions -> r < res -> r < h))
  ∧ (forall res' i, res' ∈ target_resolutions ->
       dict_get res (assign_all store) = Some (Some i) ->
       dict_get res' (assign_all store) = Some (Some i) -> res' = res).
Proof.
  intros Hin. split; [apply assign_all_get, Hin|].
  split; [intros h; apply fits_meaning|].
  intros res' i Hin' H1 H2.
  rewrite (assign_all_get _ _ Hin) in H1. rewrite (assign_all_get _ _ Hin') in H2.
  injection H1 as H1. injection H2 as H2.
  apply find_some in H1 as [_ H1]. apply find_some in H2 as [_ H2].
  unfold fits_at in *. destruct (height_at store i) as [h|]; [|discriminate].
  symmetry. eapply fits_unique; eauto.
Qed.

Lemma bucket_assignment_closest_witness :
  let store := [example_format "A" "100x100"; example_format "B" "120x120"] in
  dict_get 240 (assign_all store) = Some None
  ∧ dict_get 144 (assign_all store) = Some (Some 0%nat).
Proof.
  cbv zeta. split.
  - rewrite (proj1 (bucket_assignment_closest _ 240 ltac:(unfold target_resolutions; rewrite !elem_of_cons; auto))).
    reflexivity.
  - rewrite (proj1 (bucket_assignment_closest _ 144 ltac:(unfold target_resolutions; rewrite !elem_of_cons; auto))).
    reflexivity.
Defined.

(** C2.  Two eligible formats, the first 700 high and the second 150 high:
    the menu is the second one with the note 240p, the first one with the
    note 720p, and the audio entry, every other field of the two formats
    being the stored one; bucket 144 stays empty and the notes are written
    into the stored formats. *)
Theorem two_formats_example (fA fB : MediaFormat) :
  av_eligible fA = true -> height_of fA = Some 700 ->
  av_eligible fB = true -> height_of fB = Some 150 ->
  let fA' := {| format_id := format_id fA; ext := ext fA;
                resolution := resolution fA; filesize := filesize fA;
                format_note := Some "720p";
                vcodec := vcodec fA; acodec := acodec fA |} in
  let fB' := {| format_id := format_id fB; ext := ext fB;
                resolution := resolution fB; filesize := filesize fB;
                format_note := Some "240p";
                vcodec := vcodec fB; acodec := acodec fB |} in
  curate [fA; fB]
  = ([fA'; fB'],
     [fB'; fA';
      {| format_id := Some "bestaudio"; ext := "mp3";
         resolution := "Audio only"; filesize := None;
         format_note := Some "MP3 Audio";
         vcodec := Some "none"; acodec := Some "mp3" |}])
  ∧ dict_get 144 (assign_all [fA; fB]) = Some None.
Proof.
  intros HA HhA HB HhB. cbv zeta.
  assert (assign_all [fA; fB]
          = [(144, None); (240, Some 1%nat); (360, None); (480, None);
             (720, Some 0%nat); (1080, None); (1440, None); (2160, None)]) as Hassign.
  { unfold assign_all, av_formats. cbn [collect_av]. rewrite HA, HB.
    cbn [fold_left]. unfold assign_format.
    change ([fA; fB] !! 0%nat) with (Some fA).
    change ([fA; fB] !! 1%nat) with (Some fB).
    cbv beta iota. rewrite HhA, HhB. reflexivity. }
  split; [|rewrite Hassign; reflexivity].
  unfold curate. rewrite curate_entries_eq, Hassign. reflexivity.
Qed.

Lemma two_formats_example_witness :
  (curate [mkFormat (Some "A") "mp4" "1280x700" (Some None) (Some "")
                    (Some "avc1") (Some "mp4a");
           mkFormat (Some "B") "mp4" "200x150" (Some None) (Some "")
                    (Some "avc1") (Some "mp4a")]).2
  = [mkFormat (Some "B") "mp4" "200x150" (Some None) (Some "240p")
              (Some "avc1") (Some "mp4a");
     mkFormat (Some "A") "mp4" "1280x700" (Some None) (Some "720p")
              (Some "avc1") (Some "mp4a");
     mkFormat (Some "bestaudio") "mp3" "Audio only" None (Some "MP3 Audio")
              (Some "none") (Some "mp3")].
Proof.
  rewrite (proj1 (two_formats_example
                    (mkFormat (Some "A") "mp4" "1280x700" (Some None) (Some "")
                              (Some "avc1") (Some "mp4a"))
                    (mkFormat (Some "B") "mp4" "200x150" (Some None) (Some "")
                              (Some "avc1") (Some "mp4a"))
                    eq_refl eq_refl eq_refl eq_refl)).
  reflexivity.
Defined.

(** C3.  When no format of the list is eligible, the menu is the "Best
    quality" entry followed by the audio entry, and the stored formats are
    left as they were; for every list, the menu ends with the audio entry, so
    it is never empty. *)
Theorem no_av_formats_fallback :
  (forall store : list MediaFormat,
      Forall (fun f => av_eligible f = false) store ->
      curate store = (store, [best_quality; audio_only]))
  ∧ (forall store : list MediaFormat,
        exists menu, (curate store).2 = menu ++ [audio_only])
  ∧ format_id best_quality = Some "best[ext=mp4]/best"
  ∧ ext best_quality = "mp4"
  ∧ format_note best_quality = Some "Best quality"
  ∧ format_id audio_only = Some "bestaudio"
  ∧ ext audio_only = "mp3"
  ∧ vcodec audio_only = Some "none".
Proof.
  split; [|split; [|repeat split]].
  - intros store Hall. unfold curate. rewrite curate_entries_eq.
    unfold assign_all, av_formats. rewrite (collect_av_none store 0%nat Hall).
    reflexivity.
  - intros store. unfold curate. rewrite curate_entries_eq.
    unfold close_menu. rewrite omap_app. eexists. reflexivity.
Qed.

Lemma no_av_formats_fallback_witness :
  let audio := mkFormat (Some "140") "m4a" "unknownxunknown" (Some (Some 1000))
                        (Some "medium") (Some "none") (Some "mp4a") in
  curate [audio] = ([audio], [best_quality; audio_only]).
Proof.
  cbv zeta. apply (proj1 no_av_formats_fallback).
  repeat constructor.
Defined.

(** C8.  Curating the list that a first curation has relabelled gives the
    same menu again and leaves the stored formats as the first curation left
    them: the selection reads nothing that the relabelling writes. *)
Theorem curate_idempotent (store : list MediaFormat) :
  curate (curate store).1 = curate store.
Proof.
  unfold curate. rewrite !curate_entries_eq. cbn [fst].
  set (items := sorted_items (assign_all store)).
  set (store' := (label_all items store []).1).
  assert (assign_all store' = assign_all store) as Hassign
    by (apply assign_all_shape, label_all_shape).
  rewrite Hassign. fold items.
  assert ((label_all items store' []).1 = store') as Hstore
    by apply label_all_twice.
  rewrite Hstore. reflexivity.
Qed.

(** ** The URL classifier *)

Section ClassifierFacts.

Variable bracketed_netloc_ok : string -> bool.

Lemma any_domain_elem (h : string) (ds : list string) :
  any_domain h ds = true <-> h ∈ ds.
Proof.
  unfold any_domain. rewrite existsb_exists. split.
  - intros (d & Hd & He). apply String.eqb_eq in He. subst d.
    apply list_elem_of_In, Hd.
  - intros Hin. exists h. split; [apply list_elem_of_In, Hin | apply String.eqb_refl].
Qed.

Lemma str_in_elem (h : string) (l : list string) :
  str_in h l = true <-> h ∈ l.
Proof.
  unfold str_in. rewrite existsb_exists. split.
  - intros (d & Hd & He). apply String.eqb_eq in He. subst d.
    apply list_elem_of_In, Hd.
  - intros Hin. exists h. split; [apply list_elem_of_In, Hin | apply String.eqb_refl].
Qed.

Lemma any_pattern_true (ps : list regex) (url : string) :
  any_pattern ps url = true
  <-> exists pattern, pattern ∈ ps ∧ re_search pattern url = true.
Proof.
  induction ps as [|p ps IH]; cbn [any_pattern].
  - split; [discriminate | intros (? & []%elem_of_nil & _)].
  - destruct (re_search p url) eqn:Hp.
    + split; [|reflexivity]. intros _. exists p. split; [left | exact Hp].
    + rewrite IH. split.
      * intros (q & Hq & Hs). exists q. split; [right; exact Hq | exact Hs].
      * intros (q & Hq & Hs). apply elem_of_cons in Hq as [->|Hq]; [congruence|].
        exists q. auto.
Qed.


Implicit Types (table : list (string * platform_config)).

Lemma validate_loop_false table (h url : string) :
  (forall n c, (n, c) ∈ table -> any_domain h (domains c) = true ->
               any_pattern (patterns c) url = false) ->
  validate_loop table h url = false.
Proof.
  induction table as [|[n0 c0] table IH]; intros Hall; cbn [validate_loop];
    [reflexivity|].
  assert (validate_loop table h url = false) as Hrest
    by (apply IH; intros n c Hin; apply (Hall n); right; exact Hin).
  destruct (any_domain h (domains c0)) eqn:Hd; [|exact Hrest].
  rewrite (Hall n0 c0 ltac:(left) Hd). exact Hrest.
Qed.

Lemma validate_loop_owner table (h url n : string) (c : platform_config) :
  (n, c) ∈ table -> any_domain h (domains c) = true ->
  (forall n' c', (n', c') ∈ table -> any_domain h (domains c') = true -> c' = c) ->
  validate_loop table h url = any_pattern (patterns c) url.
Proof.
  induction table as [|[n0 c0] table IH]; intros Hin Hd Huniq;
    [apply elem_of_nil in Hin as []|].
  cbn [validate_loop].
  destruct (any_domain h (domains c0)) eqn:Hd0.
  - assert (c0 = c) as -> by (apply (Huniq n0); [left | exact Hd0]).
    destruct (any_pattern (patterns c) url) eqn:Hp; [reflexivity|].
    apply validate_loop_false. intros n' c' Hin' Hd'.
    rewrite (Huniq n' c'); [exact Hp | right; exact Hin' | exact Hd'].
  - apply elem_of_cons in Hin as [Heq|Hin]; [congruence|].
    apply IH; [exact Hin | exact Hd |].
    intros n' c' Hin'. apply (Huniq n'). right. exact Hin'.
Qed.

(** The table entry and the host, one case for each host of the table. *)
Ltac table_cases Hin Hh :=
  unfold platform_table in Hin;
  rewrite !elem_of_cons, elem_of_nil in Hin;
  repeat destruct Hin as [Hin|Hin]; try contradiction;
  injection Hin as -> ->; cbn [domains] in Hh;
  rewrite !elem_of_cons, elem_of_nil in Hh;
  repeat destruct Hh as [Hh|Hh]; try contradiction; subst.

Lemma table_disjoint (h n n' : string) (c c' : platform_config) :
  (n, c) ∈ platform_table -> h ∈ domains c ->
  (n', c') ∈ platform_table -> any_domain h (domains c') = true -> c' = c.
Proof.
  intros Hin Hh Hin' Hd'.
  unfold platform_table in Hin'.
  rewrite !elem_of_cons, elem_of_nil in Hin'.
  table_cases Hin Hh;
    repeat destruct Hin' as [Hin'|Hin']; try contradiction;
    injection Hin' as -> ->; cbn [domains] in Hd';
    first [ reflexivity | vm_compute in Hd'; discriminate Hd' ].
Qed.

Lemma validate_url_owner (url h n : string) (c : platform_config) :
  hostname_of bracketed_netloc_ok url = Some h ->
  (n, c) ∈ platform_table -> h ∈ domains c ->
  validate_url bracketed_netloc_ok url = Some (any_pattern (patterns c) url).
Proof.
  intros Hh Hin Hd. unfold validate_url. rewrite Hh. cbn [mbind option_bind].
  f_equal. apply (validate_loop_owner _ _ _ n); [exact Hin | apply any_domain_elem, Hd |].
  intros n' c'. apply table_disjoint with (n := n); assumption.
Qed.

Lemma get_platform_owner (url h n : string) (c : platform_config) :
  hostname_of bracketed_netloc_ok url = Some h ->
  (n, c) ∈ platform_table -> h ∈ domains c ->
  get_platform bracketed_netloc_ok url = Some n ∧ n ≠ "unknown".
Proof.
  intros Hh Hin Hd. unfold get_platform. rewrite Hh. cbn [mbind option_bind].
  table_cases Hin Hd; split; first [ reflexivity | discriminate ].
Qed.

(** The entries of the allow-lists are written in lower case. *)
Lemma listed_host_lower (h n : string) (c : platform_config) :
  (n, c) ∈ platform_table -> h ∈ domains c -> py_lower h = h.
Proof. intros Hin Hh. table_cases Hin Hh; reflexivity. Qed.

Lemma same_letter_lower (c d : ascii) :
  same_letter c d = true -> py_lower_char d = d -> py_lower_char c = d.
Proof.
  unfold same_letter. intros [Heq|[Hup Hcode]%andb_true_iff]%orb_true_iff Hd.
  - apply Ascii.eqb_eq in Heq. subst c. exact Hd.
  - unfold py_lower_char. rewrite Hup. cbn [orb].
    apply Nat.eqb_eq in Hcode. rewrite <- Hcode.
    unfold code. apply ascii_nat_embedding.
Qed.

Lemma same_up_to_case_lower (s : string) : forall t,
  same_up_to_case s t = true -> py_lower t = t -> py_lower s = t.
Proof.
  induction s as [|c s IH]; intros [|d t]; cbn [same_up_to_case];
    try discriminate; [reflexivity|].
  intros [Hc Hs]%andb_true_iff. unfold py_lower. cbn [str_map].
  intros [= Hd Ht].
  rewrite (same_letter_lower c d Hc Hd). f_equal. apply (IH t Hs Ht).
Qed.

Lemma listed_host_ascii (h n : string) (c : platform_config) :
  (n, c) ∈ platform_table -> h ∈ domains c ->
  str_forallb (fun d => (code d <? 128)%nat) h = true.
Proof. intros Hin Hh. table_cases Hin Hh; reflexivity. Qed.

Lemma lower_same_letter (c d : ascii) :
  py_lower_char c = d -> (code d <? 128)%nat = true -> same_letter c d = true.
Proof.
  intros <-. destruct c as [[] [] [] [] [] [] [] []];
    intros H; first [reflexivity | discriminate H].
Qed.

Lemma lower_same_up_to_case (s : string) : forall t,
  py_lower s = t -> str_forallb (fun d => (code d <? 128)%nat) t = true ->
  same_up_to_case s t = true.
Proof.
  induction s as [|c s IH]; intros t <-; [reflexivity|].
  unfold py_lower. cbn [str_map str_forallb same_up_to_case].
  intros [Hc Hs]%andb_true_iff.
  rewrite (lower_same_letter c _ eq_refl Hc). apply (IH _ eq_refl Hs).
Qed.

(** For an entry of an allow-list, [same_up_to_case] says that the
    lower-cased host is that entry. *)
Lemma lowered_host_listed_iff (s domain n : string) (c : platform_config) :
  (n, c) ∈ platform_table -> domain ∈ domains c ->
  (same_up_to_case s domain = true <-> py_lower s = domain).
Proof.
  intros Hin Hd. split.
  - intros Hs. apply same_up_to_case_lower; [exact Hs|].
    apply (listed_host_lower domain n c Hin Hd).
  - intros Hs. apply lower_same_up_to_case; [exact Hs|].
    apply (listed_host_ascii domain n c Hin Hd).
Qed.


End ClassifierFacts.


Lemma youtube_in_table : ("youtube", youtube_config) ∈ platform_table.
Proof. left. Qed.


(** C10.  [validate_url] looks for the patterns of the platform in the whole
    URL.  The URL below has a host of YouTube and the path [/playlist];
    no pattern of YouTube is found in its path, nor in the URL up to the end
    of its path, yet [validate_url] returns true, because the first pattern
    is found inside the query. *)
Theorem pattern_found_outside_path (chk : string -> bool) :
  (forall url hostname name config,
      hostname_of chk url = Some hostname ->
      (name, config) ∈ platform_table -> hostname ∈ domains config ->
      validate_url chk url = Some (any_pattern (patterns config) url))
  ∧ (let url := "https://youtube.com/playlist?list=youtu.be/abc123" in
     exists r,
       urlsplit chk url = Some r
       ∧ py_lower (netloc r) = "youtube.com"
       ∧ "youtube.com" ∈ domains youtube_config
       ∧ path r = "/playlist"
       ∧ query r = "list=youtu.be/abc123"
       ∧ any_pattern (patterns youtube_config) (path r) = false
       ∧ any_pattern (patterns youtube_config)
                     (scheme r +:+ "://" +:+ netloc r +:+ path r) = false
       ∧ any_pattern (patterns youtube_config) (query r) = true
       ∧ validate_url chk url = Some true).
Proof.
  split.
  - intros url hostname name config. apply validate_url_owner.
  - cbv zeta. eexists. split; [vm_compute; reflexivity|].
    cbn [netloc path query scheme].
    repeat split; try (vm_compute; reflexivity).
    right. left.
Qed.

Lemma pattern_found_outside_path_witness :
  validate_url (fun _ => true) "https://youtube.com/playlist?list=youtu.be/abc123"
  = Some (any_pattern (patterns youtube_config)
            "https://youtube.com/playlist?list=youtu.be/abc123").
Proof.
  apply (proj1 (pattern_found_outside_path (fun _ => true)) _ "youtube.com" "youtube");
    [reflexivity | apply youtube_in_table | right; left].
Defined.

(** ** The job table *)

Section JobFacts.

Variable chk : string -> bool.
Variable tmp : string.

Lemma validate_url_empty : validate_url chk "" = Some false.
Proof. reflexivity. Qed.

(** A submission touches no entry but the one of the id that it draws. *)
Lemma download_keeps (u f : option string) (env : DownloadEnv) (st : State)
    (id : string) :
  uuid4 env ≠ id ->
  downloads (download chk tmp u f env st).1.1 !! id = downloads st !! id.
Proof.
  intros Hne. unfold download.
  repeat case_match; cbn [fst downloads]; try reflexivity;
    rewrite ?lookup_insert_ne by exact Hne; reflexivity.
Qed.

Lemma handle_keeps (st : State) (req : request) (id : string) :
  drawn_id req ≠ Some id ->
  downloads (handle chk tmp st req).1 !! id = downloads st !! id.
Proof.
  destruct req as [u f env|i env]; cbn [handle drawn_id fst]; intros Hne.
  - apply download_keeps. congruence.
  - reflexivity.
Qed.

Lemma run_keeps (reqs : list request) : forall (st : State) (id : string),
  Forall (fun r => drawn_id r ≠ Some id) reqs ->
  downloads (run chk tmp st reqs) !! id = downloads st !! id.
Proof.
  induction reqs as [|r reqs IH]; intros st id Hall; [reflexivity|].
  inversion Hall as [|? ? Hr Hrest]; subst.
  unfold run in *. cbn [fold_left]. rewrite (IH _ id Hrest).
  apply handle_keeps, Hr.
Qed.

End JobFacts.

(** A submission whose [url] or [format] field is missing or empty, or
    whose URL is parsed and then rejected by [validate_url], is answered with
    a 400 error; the state, and so the job table, is the one before the
    request, and nothing is asked of the outside world: no job id is drawn. *)
Lemma invalid_submission_rejected (chk : string -> bool) (tmp : string)
    (form_url form_format : option string) (env : DownloadEnv) (st : State) :
  falsy form_url = true ∨ falsy form_format = true
  ∨ (exists url, form_url = Some url ∧ validate_url chk url = Some false) ->
  exists error,
    download chk tmp form_url form_format env st = (st, JsonError 400 error, []).
Proof.
  intros Hbad. unfold download.
  destruct (falsy form_url) eqn:Hu; [eexists; reflexivity|].
  destruct (falsy form_format) eqn:Hf; [eexists; reflexivity|].
  destruct Hbad as [?|[?|(url & -> & Hv)]]; try discriminate.
  cbn [orb from_option id]. rewrite Hv. eexists; reflexivity.
Qed.

(** A submission whose URL makes [urlparse] raise is answered by no handler
    of [download]; the state is the one before the request and nothing is
    asked of the outside world. *)
Lemma unparsed_submission_unhandled (chk : string -> bool) (tmp : string)
    (url format_id : string) (env : DownloadEnv) (st : State) :
  url <> "" -> format_id <> "" -> validate_url chk url = None ->
  download chk tmp (Some url) (Some format_id) env st = (st, Unhandled, []).
Proof.
  intros Hu Hf Hv. unfold download. cbn [falsy].
  apply String.eqb_neq in Hu, Hf. rewrite Hu, Hf.
  cbn [orb from_option id]. rewrite Hv. reflexivity.
Qed.

(** C7.  The claim fails on a URL that [urlparse] refuses.  The netloc of
    the URL below has an opening bracket and no closing one, so [urlparse]
    raises [ValueError] inside [validate_url], which [download] calls before
    its [try]: the exception leaves the function, and the submission is not
    answered with the 400 error meant for invalid URLs.  The state is the one
    before the request and no job id is drawn. *)
Theorem malformed_url_submission (chk : string -> bool) (tmp : string)
    (env : DownloadEnv) (st : State) :
  urlsplit chk "http://[" = None
  ∧ validate_url chk "http://[" = None
  ∧ download chk tmp (Some "http://[") (Some "18") env st = (st, Unhandled, [])
  ∧ forall error,
      (download chk tmp (Some "http://[") (Some "18") env st).1.2
      <> JsonError 400 error.
Proof.
  assert (urlsplit chk "http://[" = None) as Hsplit by reflexivity.
  assert (validate_url chk "http://[" = None) as Hv.
  { unfold validate_url, hostname_of. rewrite Hsplit. reflexivity. }
  assert (download chk tmp (Some "http://[") (Some "18") env st
          = (st, Unhandled, [])) as Hd.
  { unfold download. cbn [falsy String.eqb Ascii.eqb Bool.eqb orb from_option id].
    rewrite Hv. reflexivity. }
  split; [exact Hsplit|]. split; [exact Hv|]. split; [exact Hd|].
  intros error. rewrite Hd. discriminate.
Qed.

(** C6.  [get_file] answers 404 for an id that is not in the job table and
    400 for a job whose status is not [completed].  For a completed job it
    sends the stored output file under the name made of the platform, the
    sanitised title and the extension, with an audio content type for mp3 and
    a video one otherwise; when the title cannot be fetched again, or the
    file cannot be sent, it answers 500. *)
Theorem get_file_outcomes (chk : string -> bool) (download_id : string)
    (env : GetFileEnv) (st : State) :
  (downloads st !! download_id = None ->
   get_file chk download_id env st = (Abort 404, []))
  ∧ (forall job, downloads st !! download_id = Some job ->
       status job ≠ "completed" ->
       get_file chk download_id env st = (Abort 400, []))
  ∧ (forall job platform info title,
       downloads st !! download_id = Some job ->
       status job = "completed" ->
       get_platform chk (job_url job) = Some platform ->
       gf_extract_info env = Returns info ->
       default (Some "video") (info_title info) = Some title ->
       gf_send_file env = Returns () ->
       (get_file chk download_id env st).1
       = SendFile (output_file job)
           (platform +:+ "_" +:+ sanitize_title title +:+ "." +:+ job_ext job)
           ((if String.eqb (job_ext job) "mp3" then "audio" else "video")
            +:+ "/" +:+ job_ext job))
  ∧ (forall job,
       downloads st !! download_id = Some job ->
       status job = "completed" ->
       (exists msg, gf_extract_info env = Raises msg)
       ∨ (exists info, gf_extract_info env = Returns info
                       ∧ info_title info = Some None)
       ∨ (exists msg, gf_send_file env = Raises msg) ->
       (get_file chk download_id env st).1 = Abort 500).
Proof.
  unfold get_file. repeat split.
  - intros ->. reflexivity.
  - intros job -> Hs. apply String.eqb_neq in Hs. rewrite Hs. reflexivity.
  - intros job platform info title -> Hs Hp He Ht Hsend.
    rewrite Hs, Hp, He, Ht, Hsend. reflexivity.
  - intros job -> Hs Hfail. rewrite Hs.
    change (negb ("completed" =? "completed")%string) with false. cbv iota.
    destruct (get_platform chk (job_url job)); [|reflexivity].
    destruct Hfail as [(msg & ->)|[(info & -> & ->)|(msg & Hsend)]];
      try reflexivity.
    destruct (gf_extract_info env) as [info|]; [|reflexivity].
    destruct (default (Some "video") (info_title info)); [|reflexivity].
    rewrite Hsend. reflexivity.
Qed.

Lemma get_file_outcomes_witness :
  get_file (fun _ => true) "0000" fetch_ok two_jobs = (Abort 404, [])
  ∧ get_file (fun _ => true) "77aa" fetch_ok two_jobs = (Abort 400, [])
  ∧ (get_file (fun _ => true) "6f1c" fetch_ok two_jobs).1
    = SendFile "/tmp/dl/6f1c.mp3" "youtube_Cats_Video_Part_1.mp3" "audio/mp3"
  ∧ (get_file (fun _ => true) "6f1c" fetch_fails two_jobs).1 = Abort 500.
Proof.
  split; [|split; [|split]].
  - apply (get_file_outcomes (fun _ => true) "0000" fetch_ok two_jobs).
    vm_compute; reflexivity.
  - apply (proj1 (proj2 (get_file_outcomes (fun _ => true) "77aa" fetch_ok two_jobs))
             pending_job); [vm_compute; reflexivity | discriminate].
  - apply (proj1 (proj2 (proj2 (get_file_outcomes (fun _ => true) "6f1c" fetch_ok
                                  two_jobs)))
             done_job "youtube" fetched_info "Cat's Video: Part #1!");
      vm_compute; reflexivity.
  - apply (proj2 (proj2 (proj2 (get_file_outcomes (fun _ => true) "6f1c" fetch_fails
                                  two_jobs)))
             done_job); [vm_compute; reflexivity | reflexivity |].
    left. eexists. reflexivity.
Defined.

(** C9.  When [ydl.download] raises, the entry that the submission has
    recorded under its job id keeps the status [downloading]: the request is
    answered 500, no row is committed to the history, and after any further
    requests that draw other job ids the entry is still there, unchanged, so
    that [get_file] answers 400 for it. *)
Theorem failed_download_stays_downloading (chk : string -> bool) (tmp : string)
    (st : State) (url format_id : string) (env : DownloadEnv) (info : Info)
    (msg : string) (reqs : list request) :
  validate_url chk url = Some true ->
  format_id ≠ "" ->
  extract_info env = Returns info ->
  ydl_download env = Raises msg ->
  Forall (fun r => drawn_id r ≠ Some (uuid4 env)) reqs ->
  let result := download chk tmp (Some url) (Some format_id) env st in
  let st' := run chk tmp result.1.1 reqs in
  result.1.2 = JsonError 500 msg
  ∧ history result.1.1 = history st
  ∧ (forall row, DbCommit row ∉ result.2)
  ∧ exists job,
      downloads result.1.1 !! uuid4 env = Some job
      ∧ job_url job = url
      ∧ status job = "downloading"
      ∧ downloads st' !! uuid4 env = Some job
      ∧ forall genv, get_file chk (uuid4 env) genv st' = (Abort 400, []).
Proof.
  intros Hv Hf He Hd Hfresh result st'.
  assert (url ≠ "") as Hu
    by (intros ->; rewrite validate_url_empty in Hv; discriminate).
  assert (falsy (Some url) || falsy (Some format_id) = false) as Hfalsy.
  { cbn [falsy]. apply String.eqb_neq in Hu, Hf. rewrite Hu, Hf. reflexivity. }
  assert (exists platform, get_platform chk url = Some platform) as [platform Hp].
  { unfold validate_url, get_platform in *.
    destruct (hostname_of chk url); [eexists; reflexivity | discriminate]. }
  subst st'. subst result. unfold download.
  rewrite Hfalsy. cbn [from_option id]. rewrite Hv, Hp, He.
  destruct (find_selected format_id (info_formats info)) as [[selected filesize] ext].
  destruct (build_opts (os_path_join tmp (uuid4 env)) format_id selected ext)
    as [opts ext'].
  rewrite Hd. cbn [fst snd history downloads].
  split; [reflexivity|]. split; [reflexivity|]. split.
  - intros row Hin. rewrite !elem_of_cons, elem_of_nil in Hin.
    destruct Hin as [?|[?|[?|[]]]]; discriminate.
  - eexists. split; [apply lookup_insert_eq|].
    split; [reflexivity|]. split; [reflexivity|].
    assert (forall j, downloads (run chk tmp
              {| downloads := <[uuid4 env := j]> (downloads st);
                 history := history st |} reqs) !! uuid4 env = Some j) as Hkeep.
    { intros j. rewrite (run_keeps chk tmp reqs _ _ Hfresh).
      apply lookup_insert_eq. }
    split; [apply Hkeep|].
    intros genv. unfold get_file. rewrite Hkeep. reflexivity.
Qed.

Lemma failed_download_stays_downloading_witness :
  let result := download (fun _ => true) "/tmp/dl" (Some "https://youtu.be/abc123")
                         (Some "18") failing_env (mkState ∅ []) in
  result.1.2 = JsonError 500 "HTTP Error 403: Forbidden"
  ∧ forall genv,
      get_file (fun _ => true) "6f1c" genv
               (run (fun _ => true) "/tmp/dl" result.1.1 later_requests)
      = (Abort 400, []).
Proof.
  cbv zeta.
  destruct (failed_download_stays_downloading (fun _ => true) "/tmp/dl"
              (mkState ∅ []) "https://youtu.be/abc123" "18" failing_env
              clip_info "HTTP Error 403: Forbidden" later_requests)
    as (Hresp & _ & _ & job & _ & _ & _ & _ & Hget).
  - vm_compute; reflexivity.
  - discriminate.
  - reflexivity.
  - reflexivity.
  - unfold later_requests.
    constructor; [discriminate|].
    constructor; [discriminate|].
    constructor; [discriminate|]. constructor.
  - split; [exact Hresp | exact Hget].
Defined.

(** ** The sanitised title *)

Section SanitizeFacts.

Lemma py_replace_space (s : string) :
  py_replace " " "_" s = str_map space_to_underscore s.
Proof.
  induction s as [|c s IH]; [reflexivity|].
  cbn [py_replace str_map]. unfold space_to_underscore at 1.
  destruct (Ascii.eqb c " "); rewrite IH; reflexivity.
Qed.

Lemma str_forallb_filter (p q : ascii -> bool) (s : string) :
  str_forallb p s = true -> str_forallb p (str_filter q s) = true.
Proof.
  induction s as [|c s IH]; [reflexivity|].
  cbn [str_forallb str_filter]. intros [Hc Hs]%andb_true_iff.
  destruct (q c); [cbn [str_forallb]; rewrite Hc|]; auto.
Qed.

Lemma str_forallb_lstrip (p q : ascii -> bool) (s : string) :
  str_forallb p s = true -> str_forallb p (lstrip_by q s) = true.
Proof.
  induction s as [|c s IH]; [reflexivity|].
  cbn [lstrip_by]. destruct (q c); [|auto].
  cbn [str_forallb]. intros [_ Hs]%andb_true_iff. auto.
Qed.

Lemma str_forallb_rstrip (p q : ascii -> bool) (s : string) :
  str_forallb p s = true -> str_forallb p (rstrip_by q s) = true.
Proof.
  induction s as [|c s IH]; [reflexivity|].
  cbn [str_forallb rstrip_by]. intros [Hc Hs]%andb_true_iff.
  specialize (IH Hs). destruct (rstrip_by q s) as [|d r].
  - destruct (q c); [reflexivity|]. cbn [str_forallb]. rewrite Hc. reflexivity.
  - cbn [str_forallb] in *. rewrite Hc. exact IH.
Qed.

Lemma str_map_pointwise (p : ascii -> bool) (f g : ascii -> ascii) (s : string) :
  (forall c, p c = true -> f c = g c) ->
  str_forallb p s = true -> str_map f s = str_map g s.
Proof.
  intros Hfg. induction s as [|c s IH]; [reflexivity|].
  cbn [str_forallb str_map]. intros [Hc Hs]%andb_true_iff.
  rewrite (Hfg c Hc), (IH Hs). reflexivity.
Qed.

Lemma underscore_agree (c : ascii) :
  blank_or_solid c = true -> space_to_underscore c = spec_underscore c.
Proof.
  unfold blank_or_solid, space_to_underscore, spec_underscore.
  destruct (Ascii.eqb_spec c " ") as [->|Hne]; [reflexivity|].
  rewrite orb_false_r. intros ->%negb_true_iff. reflexivity.
Qed.

(** What [lstrip_by] and [rstrip_by] cut off, and what they leave. *)
Lemma lstrip_by_split (p : ascii -> bool) (s : string) :
  exists l, s = l +:+ lstrip_by p s ∧ str_forallb p l = true.
Proof.
  induction s as [|c s (l & Hl & Hp)]; [exists ""; auto|].
  cbn [lstrip_by]. destruct (p c) eqn:Hc.
  - exists (String c l). cbn [str_forallb]. rewrite Hc, Hp.
    split; [rewrite append_cons; f_equal; exact Hl | reflexivity].
  - exists "". auto.
Qed.

Lemma lstrip_by_head (p : ascii -> bool) (s : string) (c : ascii) (t : string) :
  lstrip_by p s = String c t -> p c = false.
Proof.
  induction s as [|d s IH]; [discriminate|].
  cbn [lstrip_by]. destruct (p d) eqn:Hd; [exact IH|].
  intros [= <- _]. exact Hd.
Qed.

Lemma rstrip_by_split (p : ascii -> bool) (s : string) :
  exists r, s = rstrip_by p s +:+ r ∧ str_forallb p r = true.
Proof.
  induction s as [|c s (r & Hr & Hp)]; [exists ""; auto|].
  cbn [rstrip_by]. destruct (rstrip_by p s) as [|d t] eqn:Hs.
  - rewrite append_nil in Hr. subst r. destruct (p c) eqn:Hc.
    + exists (String c s). cbn [str_forallb]. rewrite Hc, Hp. auto.
    + exists s. rewrite append_cons, append_nil. auto.
  - exists r. rewrite append_cons. split; [f_equal; exact Hr | exact Hp].
Qed.

Lemma rstrip_by_last (p : ascii -> bool) (s : string) : forall t c,
  rstrip_by p s = t +:+ String c "" -> p c = false.
Proof.
  induction s as [|d s IH]; intros t c; cbn [rstrip_by].
  - destruct t; discriminate.
  - destruct (rstrip_by p s) as [|e r].
    + destruct (p d) eqn:Hd; [destruct t; discriminate|].
      destruct t as [|d' [|? ?]]; [|discriminate..].
      rewrite append_nil. intros [= <-]. exact Hd.
    + destruct t as [|d' t]; [rewrite append_nil; discriminate|].
      rewrite append_cons. intros [= _ Ht]. exact (IH t c Ht).
Qed.

(** [s.strip()] cuts white space off both ends and leaves none there. *)
Lemma py_strip_spec (s : string) :
  exists l r,
    s = l +:+ py_strip s +:+ r
    ∧ str_forallb py_isspace l = true ∧ str_forallb py_isspace r = true
    ∧ (forall c t, py_strip s = String c t -> py_isspace c = false)
    ∧ (forall t c, py_strip s = t +:+ String c "" -> py_isspace c = false).
Proof.
  unfold py_strip.
  destruct (lstrip_by_split py_isspace s) as (l & Hl & Hpl).
  destruct (rstrip_by_split py_isspace (lstrip_by py_isspace s)) as (r & Hr & Hpr).
  exists l, r. split; [rewrite <- Hr; exact Hl|].
  split; [exact Hpl|]. split; [exact Hpr|]. split.
  - intros c t Hc. rewrite Hc, append_cons in Hr.
    exact (lstrip_by_head _ _ _ _ Hr).
  - apply rstrip_by_last.
Qed.

End SanitizeFacts.

(** C4 (as stated, refuted).  A tab between two letters is white space inside
    the title; both readings of the specification turn it into an underscore,
    the code keeps it. *)
Lemma sanitize_title_counterexample :
  let title := String "a" (String "009" "b") in
  py_isspace "009" = true
  ∧ sanitize_title title = title
  ∧ spec_sanitize_title title = "a_b"
  ∧ spec_sanitize_title_runs title = "a_b"
  ∧ sanitize_title title ≠ spec_sanitize_title title.
Proof. vm_compute. repeat split; discriminate. Qed.

(** C4 (amended).  Take the title without the characters that are neither
    word characters, white space nor the hyphen, and cut the white space off
    its two ends: the sanitised title is what is left, with every blank
    (code 32) turned into one underscore and every other character kept.
    When the title holds no white space but blanks, every white space
    character left inside becomes an underscore, as the specification says.
    The title of the example gives [Cats_Video_Part_1]. *)
Theorem sanitize_title_blanks :
  (forall title, exists l core r,
      str_filter title_char title = l +:+ core +:+ r
      ∧ str_forallb py_isspace l = true ∧ str_forallb py_isspace r = true
      ∧ (forall c t, core = String c t -> py_isspace c = false)
      ∧ (forall t c, core = t +:+ String c "" -> py_isspace c = false)
      ∧ sanitize_title title = str_map space_to_underscore core)
  ∧ (forall title,
        str_forallb blank_or_solid title = true ->
        sanitize_title title = spec_sanitize_title title)
  ∧ sanitize_title "Cat's Video: Part #1!" = "Cats_Video_Part_1".
Proof.
  split; [|split]; [| |reflexivity].
  - intros title.
    destruct (py_strip_spec (str_filter title_char title))
      as (l & r & Hs & Hl & Hr & Hhead & Hlast).
    exists l, (py_strip (str_filter title_char title)), r.
    repeat (split; [assumption|]).
    unfold sanitize_title. apply py_replace_space.
  - intros title Hall. unfold sanitize_title, spec_sanitize_title.
    rewrite py_replace_space.
    apply (str_map_pointwise blank_or_solid); [apply underscore_agree|].
    unfold py_strip.
    apply str_forallb_rstrip, str_forallb_lstrip, str_forallb_filter, Hall.
Qed.

Lemma sanitize_title_blanks_witness :
  sanitize_title "  My  clip - part 2 " = spec_sanitize_title "  My  clip - part 2 ".
Proof.
  apply (proj1 (proj2 sanitize_title_blanks)). reflexivity.
Defined.

(** * Further properties *)

(** ** Printing and reading integers *)

Section IntegerText.

Lemma digits_go_uint (d : uint) : forall acc n,
  digits_go false acc n (NilEmpty.string_of_uint d)
  = Some (uint_value acc d, (n + uint_len d)%nat).
Proof.
  induction d; intros acc n; cbn [NilEmpty.string_of_uint uint_value uint_len];
    [cbn [digits_go]; rewrite Nat.add_0_r; reflexivity|..];
    cbn [digits_go];
    match goal with
    | |- context [is_ascii_digit ?c] => change (is_ascii_digit c) with true
    end;
    match goal with
    | |- context [digit_val ?c] =>
        let v := eval vm_compute in (digit_val c) in change (digit_val c) with v
    end;
    cbv iota; rewrite IHd, ?Z.add_0_r; f_equal; f_equal; lia.
Qed.

Lemma uint_value_of_lu (d : uint) : forall acc,
  uint_value acc d
  = acc * 10 ^ Z.of_nat (uint_len d)
    + Z.of_N (DecimalPos.Unsigned.of_lu (Decimal.rev d)).
Proof.
  assert (forall d, N.to_nat (DecimalPos.Unsigned.usize d) = uint_len d) as Hlen.
  { intros d0. induction d0; cbn [DecimalPos.Unsigned.usize uint_len];
      [reflexivity|..]; rewrite N2Nat.inj_succ, IHd0; reflexivity. }
  assert (forall d, Z.of_N (10 ^ DecimalPos.Unsigned.usize d)
                    = 10 ^ Z.of_nat (uint_len d)) as Hpow.
  { intros d0. rewrite N2Z.inj_pow, <- (Hlen d0), N_nat_Z. reflexivity. }
  induction d; intros acc; cbn [uint_value uint_len];
    [cbn; lia|..];
    unfold Decimal.rev; cbn [Decimal.revapp];
    rewrite (DecimalPos.Unsigned.of_lu_revapp d); fold (Decimal.rev d);
    rewrite IHd;
    rewrite N2Z.inj_add, N2Z.inj_mul, Hpow, Nat2Z.inj_succ, Z.pow_succ_r by lia;
    cbn [DecimalPos.Unsigned.of_lu]; rewrite ?N.mul_0_r, ?N.add_0_r;
    cbn [Z.of_N]; lia.
Qed.

Lemma uint_value_pos (p : positive) : uint_value 0 (Pos.to_uint p) = Zpos p.
Proof.
  rewrite uint_value_of_lu, Z.mul_0_l, Z.add_0_l.
  rewrite <- DecimalPos.Unsigned.of_uint_alt, DecimalPos.Unsigned.of_to.
  reflexivity.
Qed.

Lemma uint_digits (d : uint) :
  str_forallb is_ascii_digit (NilEmpty.string_of_uint d) = true.
Proof. induction d; cbn [NilEmpty.string_of_uint str_forallb]; auto. Qed.

Lemma rstrip_by_none (p : ascii -> bool) (s : string) :
  str_forallb (fun c => negb (p c)) s = true -> rstrip_by p s = s.
Proof.
  induction s as [|c s IH]; [reflexivity|].
  cbn [str_forallb rstrip_by]. intros [Hc Hs]%andb_true_iff.
  rewrite (IH Hs). apply negb_true_iff in Hc. rewrite Hc.
  destruct s; reflexivity.
Qed.

Lemma str_forallb_weaken (p q : ascii -> bool) (s : string) :
  (forall c, p c = true -> q c = true) ->
  str_forallb p s = true -> str_forallb q s = true.
Proof.
  intros Hpq. induction s as [|c s IH]; [reflexivity|].
  cbn [str_forallb]. intros [Hc Hs]%andb_true_iff.
  rewrite (Hpq c Hc), (IH Hs). reflexivity.
Qed.

Lemma digit_not_space (c : ascii) :
  is_ascii_digit c = true -> negb (int_space c) = true.
Proof.
  unfold is_ascii_digit, int_space, in_range.
  intros [H1 H2]%andb_true_iff.
  apply Nat.leb_le in H1, H2.
  rewrite negb_true_iff, !orb_false_iff, andb_false_iff, !Nat.eqb_neq,
    !Nat.leb_gt.
  lia.
Qed.

(** The text of a positive number is read back as the number. *)
Lemma py_int_digits_pos (p : positive) :
  (uint_len (Pos.to_uint p) <= int_max_str_digits)%nat ->
  py_int_digits (NilEmpty.string_of_uint (Pos.to_uint p)) = Some (Zpos p).
Proof.
  intros Hlen. unfold py_int_digits.
  pose proof (digits_go_uint (Pos.to_uint p) 0 0%nat) as Hgo.
  pose proof (DecimalPos.Unsigned.to_uint_nonnil p) as Hnil.
  pose proof (uint_digits (Pos.to_uint p)) as Hdig.
  destruct (NilEmpty.string_of_uint (Pos.to_uint p)) as [|c s] eqn:Hs.
  - destruct (Pos.to_uint p); try discriminate. congruence.
  - cbn [str_forallb] in Hdig. apply andb_true_iff in Hdig as [Hc _].
    rewrite Hc, Hgo, uint_value_pos. cbn [Nat.add].
    apply Nat.leb_le in Hlen. rewrite Hlen. reflexivity.
Qed.

Lemma uint_string_length (d : uint) :
  String.length (NilEmpty.string_of_uint d) = uint_len d.
Proof. induction d; cbn [NilEmpty.string_of_uint String.length uint_len]; auto. Qed.

Lemma py_str_int_pos (p : positive) :
  py_str_int (Zpos p) = NilEmpty.string_of_uint (Pos.to_uint p).
Proof.
  unfold py_str_int. cbn [Z.to_int NilZero.string_of_int].
  unfold NilZero.string_of_uint.
  pose proof (DecimalPos.Unsigned.to_uint_nonnil p).
  destruct (Pos.to_uint p); congruence.
Qed.

Lemma py_str_int_neg (p : positive) :
  py_str_int (Zneg p) = String "-" (NilEmpty.string_of_uint (Pos.to_uint p)).
Proof.
  unfold py_str_int. cbn [Z.to_int NilZero.string_of_int].
  unfold NilZero.string_of_uint.
  pose proof (DecimalPos.Unsigned.to_uint_nonnil p).
  destruct (Pos.to_uint p); congruence.
Qed.

Lemma py_int_of_digits (s : string) (c : ascii) :
  str_forallb is_ascii_digit (String c s) = true ->
  py_int (String c s) = py_int_digits (String c s).
Proof.
  intros Hdig. unfold py_int.
  assert (str_forallb (fun c => negb (int_space c)) (String c s) = true) as Hns
    by (revert Hdig; apply str_forallb_weaken, digit_not_space).
  assert (lstrip_by int_space (String c s) = String c s) as ->.
  { cbn [lstrip_by str_forallb] in *. apply andb_true_iff in Hns as [Hc _].
    apply negb_true_iff in Hc. rewrite Hc. reflexivity. }
  rewrite (rstrip_by_none _ _ Hns).
  cbn [str_forallb] in Hdig. apply andb_true_iff in Hdig as [Hc _].
  destruct c as [[] [] [] [] [] [] [] []]; try reflexivity; discriminate Hc.
Qed.

Lemma py_int_of_minus (s : string) :
  str_forallb is_ascii_digit s = true ->
  py_int (String "-" s) = Z.opp <$> py_int_digits s.
Proof.
  intros Hdig. unfold py_int.
  assert (str_forallb (fun c => negb (int_space c)) (String "-" s) = true) as Hns.
  { cbn [str_forallb]. apply andb_true_iff. split; [reflexivity|].
    revert Hdig. apply str_forallb_weaken, digit_not_space. }
  change (lstrip_by int_space (String "-" s)) with (String "-" s).
  rewrite (rstrip_by_none _ _ Hns). reflexivity.
Qed.

Lemma py_int_str_int (n : Z) (s : string) :
  py_str_int_checked n = Some s -> py_int s = Some n.
Proof.
  unfold py_str_int_checked. destruct (_ <=? _)%nat eqn:Hlen; [|discriminate].
  intros [= <-]. apply Nat.leb_le in Hlen. destruct n as [|p|p].
  - reflexivity.
  - change (Z.abs (Z.pos p)) with (Z.pos p) in Hlen.
    rewrite py_str_int_pos in Hlen. rewrite py_str_int_pos.
    rewrite uint_string_length in Hlen.
    pose proof (uint_digits (Pos.to_uint p)) as Hdig.
    pose proof (py_int_digits_pos p Hlen) as Hint.
    destruct (NilEmpty.string_of_uint (Pos.to_uint p)) as [|c s];
      [discriminate Hint|].
    rewrite (py_int_of_digits s c Hdig). exact Hint.
  - change (Z.abs (Z.neg p)) with (Z.pos p) in Hlen.
    rewrite py_str_int_pos in Hlen. rewrite py_str_int_neg.
    rewrite uint_string_length in Hlen.
    rewrite (py_int_of_minus _ (uint_digits _)), (py_int_digits_pos p Hlen).
    reflexivity.
Qed.

End IntegerText.

(** ** The curated menu *)

Section MenuFacts.

Implicit Types (store : list MediaFormat) (d rf : dict).

Lemma dict_set_keys k v d :
  dict_get k d <> None -> (dict_set k v d).*1 = d.*1.
Proof.
  induction d as [|[k0 v0] d IH]; cbn [dict_get dict_set]; [congruence|].
  destruct (Z.eqb_spec k k0) as [->|Hne]; intros Hk; cbn [fmap list_fmap fst].
  - reflexivity.
  - f_equal. apply IH, Hk.
Qed.

Lemma scan_targets_keys h i targets rf :
  (scan_targets h i targets rf).*1 = rf.*1.
Proof.
  induction targets as [|res targets IH]; cbn [scan_targets]; [reflexivity|].
  destruct (h <=? res)%Z; [|exact IH].
  destruct (dict_get res rf) as [[j|]|] eqn:Hg; try reflexivity.
  apply dict_set_keys. congruence.
Qed.

Lemma assign_all_keys store : (assign_all store).*1 = target_resolutions.
Proof.
  unfold assign_all. generalize (av_formats store).
  assert (resolution_formats_init.*1 = target_resolutions) as Hinit by reflexivity.
  revert Hinit. generalize resolution_formats_init.
  intros rf Hrf l. revert rf Hrf.
  induction l as [|i l IH]; intros rf Hrf; cbn [fold_left]; [exact Hrf|].
  apply IH. unfold assign_format.
  destruct (store !! i) as [f|]; [|exact Hrf].
  destruct (height_of f); [|exact Hrf].
  rewrite scan_targets_keys. exact Hrf.
Qed.

(** A dictionary is determined by its keys and what [dict_get] finds. *)
Lemma dict_by_keys (g : Z -> option nat) : forall (ks : list Z) d,
  d.*1 = ks -> NoDup ks ->
  (forall k, k ∈ ks -> dict_get k d = Some (g k)) ->
  d = (fun k => (k, g k)) <$> ks.
Proof.
  induction ks as [|k ks IH]; intros [|[k0 v0] d] Hk Hnd Hg; try discriminate;
    [reflexivity|].
  cbn [fmap list_fmap fst] in Hk. injection Hk as -> Hk.
  apply NoDup_cons in Hnd as [Hnotin Hnd].
  cbn [fmap list_fmap]. f_equal.
  - pose proof (Hg k ltac:(left)) as H0. cbn [dict_get] in H0.
    rewrite Z.eqb_refl in H0. congruence.
  - apply IH; [exact Hk | exact Hnd|].
    intros k' Hin. pose proof (Hg k' ltac:(right; exact Hin)) as H0.
    cbn [dict_get] in H0.
    destruct (Z.eqb_spec k' k) as [->|]; [contradiction | exact H0].
Qed.

Lemma targets_nodup : NoDup target_resolutions.
Proof.
  unfold target_resolutions.
  repeat (apply NoDup_cons_2;
          [rewrite ?elem_of_cons, elem_of_nil; lia|]).
  apply NoDup_nil_2.
Qed.

Lemma assign_all_explicit store :
  assign_all store = (fun res => (res, holder store res)) <$> target_resolutions.
Proof.
  apply dict_by_keys; [apply assign_all_keys | apply targets_nodup|].
  intros res Hin. apply assign_all_get, Hin.
Qed.

Lemma sorted_assign_all store :
  sorted_items (assign_all store) = assign_all store.
Proof. rewrite assign_all_explicit. reflexivity. Qed.

Lemma holder_fits store res i :
  holder store res = Some i ->
  exists f h, store !! i = Some f ∧ height_of f = Some h ∧ fits res h = true.
Proof.
  unfold holder. intros [_ Hf]%find_some. unfold fits_at, height_at in Hf.
  destruct (store !! i) as [f|]; cbn [mbind option_bind] in Hf; [|discriminate].
  destruct (height_of f) as [h|] eqn:Hh; [|discriminate]. eauto.
Qed.

Lemma holder_unique store res res' i :
  res ∈ target_resolutions -> res' ∈ target_resolutions ->
  holder store res = Some i -> holder store res' = Some i -> res = res'.
Proof.
  intros Hin Hin' (f & h & Hf & Hh & Hfit)%holder_fits
         (f' & h' & Hf' & Hh' & Hfit')%holder_fits.
  assert (h' = h) as -> by congruence.
  eapply fits_unique; eauto.
Qed.

Lemma final_note_some (items : dict) (j : nat) (n : string) :
  final_note items j = Some n ->
  exists res, (res, Some j) ∈ items ∧ n = label_of res.
Proof.
  induction items as [|[res v] items IH]; cbn [final_note]; [discriminate|].
  destruct (final_note items j) as [m|].
  - intros [= <-]. destruct (IH eq_refl) as (r & Hr & ->).
    exists r. split; [right; exact Hr | reflexivity].
  - case_bool_decide as Hv; [|discriminate]. intros [= <-]. subst v.
    exists res. split; [left | reflexivity].
Qed.

Lemma final_note_mem (items : dict) (j : nat) (res : Z) :
  (res, Some j) ∈ items -> final_note items j <> None.
Proof.
  induction items as [|[r v] items IH]; [intros []%elem_of_nil|].
  cbn [final_note]. intros [Heq|Hin]%elem_of_cons.
  - injection Heq as <- <-. destruct (final_note items j); [discriminate|].
    rewrite bool_decide_eq_true_2 by reflexivity. discriminate.
  - specialize (IH Hin). destruct (final_note items j); [discriminate|contradiction].
Qed.

Lemma final_note_holder store res j :
  res ∈ target_resolutions -> holder store res = Some j ->
  final_note (assign_all store) j = Some (label_of res).
Proof.
  intros Hin Hj.
  assert ((res, Some j) ∈ assign_all store) as Hmem.
  { rewrite assign_all_explicit. apply list_elem_of_fmap.
    exists res. rewrite Hj. auto. }
  destruct (final_note (assign_all store) j) as [n|] eqn:Hn;
    [|exfalso; exact (final_note_mem _ _ _ Hmem Hn)].
  apply final_note_some in Hn as (r & Hr & ->).
  rewrite assign_all_explicit in Hr.
  apply list_elem_of_fmap in Hr as (r' & [= -> Hh] & Hin').
  rewrite (holder_unique store res r' j Hin Hin' Hj (eq_sym Hh)). reflexivity.
Qed.

Lemma final_note_free store j :
  (forall res, res ∈ target_resolutions -> holder store res <> Some j) ->
  final_note (assign_all store) j = None.
Proof.
  intros Hfree. destruct (final_note (assign_all store) j) as [n|] eqn:Hn;
    [|reflexivity].
  apply final_note_some in Hn as (r & Hr & _).
  rewrite assign_all_explicit in Hr.
  apply list_elem_of_fmap in Hr as (r' & [= -> Hh] & Hin').
  exfalso. exact (Hfree r' Hin' (eq_sym Hh)).
Qed.

(** The stored formats after the curation. *)
Lemma curate_store_lookup store j :
  (curate store).1 !! j
  = renote (final_note (assign_all store) j) <$> store !! j.
Proof.
  unfold curate. rewrite curate_entries_eq. cbn [fst].
  rewrite sorted_assign_all. apply label_all_store.
Qed.

Lemma bucket_entry_deref store res :
  res ∈ target_resolutions ->
  (Ref <$> holder store res) ≫= deref (curate store).1 = bucket_entry store res.
Proof.
  intros Hin. unfold bucket_entry.
  destruct (holder store res) as [i|] eqn:Hi; [|reflexivity].
  cbn [fmap option_fmap option_map mbind option_bind deref].
  rewrite curate_store_lookup, (final_note_holder store res i Hin Hi).
  reflexivity.
Qed.

Lemma omap_ext_in {A B} (f g : A -> option B) (l : list A) :
  (forall x, x ∈ l -> f x = g x) -> omap f l = omap g l.
Proof.
  induction l as [|x l IH]; intros Hfg; [reflexivity|].
  cbn [omap list_omap]. rewrite (Hfg x ltac:(left)).
  rewrite IH; [reflexivity|]. intros y Hy. apply Hfg. right. exact Hy.
Qed.

Lemma omap_omap {A B C} (f : A -> option B) (g : B -> option C) (l : list A) :
  omap g (omap f l) = omap (fun x => f x ≫= g) l.
Proof.
  induction l as [|x l IH]; [reflexivity|].
  cbn [omap list_omap]. destruct (f x) as [y|]; cbn [mbind option_bind];
    [|exact IH].
  cbn [omap list_omap]. rewrite IH. reflexivity.
Qed.

Lemma refs_of_assign_all store :
  refs_of (assign_all store)
  = omap (fun res => Ref <$> holder store res) target_resolutions.
Proof.
  unfold refs_of. rewrite assign_all_explicit.
  generalize target_resolutions. intros l.
  induction l as [|r l IH]; [reflexivity|].
  cbn [fmap list_fmap omap list_omap snd]. rewrite IH. reflexivity.
Qed.

Lemma bucket_refs_deref store :
  omap (deref (curate store).1) (refs_of (assign_all store))
  = bucket_entries store.
Proof.
  rewrite refs_of_assign_all, omap_omap. apply omap_ext_in.
  intros res Hin. apply bucket_entry_deref, Hin.
Qed.

Lemma bucket_entry_none store res :
  bucket_entry store res = None <-> holder store res = None.
Proof.
  unfold bucket_entry. split.
  - destruct (holder store res) as [i|] eqn:Hi; [|reflexivity].
    apply holder_fits in Hi as (f & h & Hf & _).
    cbn [mbind option_bind]. rewrite Hf. discriminate.
  - intros ->. reflexivity.
Qed.

Lemma refs_nil_iff store :
  refs_of (assign_all store) = [] <-> bucket_entries store = [].
Proof.
  rewrite refs_of_assign_all. unfold bucket_entries.
  generalize target_resolutions. intros l.
  induction l as [|r l IH]; [tauto|].
  cbn [omap list_omap].
  destruct (holder store r) as [i|] eqn:Hi.
  - cbn [fmap option_fmap option_map].
    destruct (bucket_entry store r) eqn:Hb;
      [split; discriminate|].
    apply bucket_entry_none in Hb. congruence.
  - apply bucket_entry_none in Hi. rewrite Hi. exact IH.
Qed.

End MenuFacts.

Lemma curate_menu_eq (store : list MediaFormat) :
  (curate store).2
  = bucket_entries store
    ++ match bucket_entries store with
       | [] => [best_quality]
       | _ => []
       end
    ++ [audio_only].
Proof.
  pose proof (bucket_refs_deref store) as Hrefs.
  pose proof (refs_nil_iff store) as Hnil.
  unfold curate in *. rewrite curate_entries_eq in *. cbn [fst snd] in *.
  rewrite sorted_assign_all in *. unfold close_menu.
  case_bool_decide as Hempty.
  - rewrite !omap_app, Hrefs. rewrite (proj1 Hnil Hempty). reflexivity.
  - rewrite omap_app, Hrefs.
    destruct (bucket_entries store) eqn:Hb; [|reflexivity].
    exfalso. apply Hempty, Hnil. reflexivity.
Qed.

Lemma bucket_labels_eq :
  bucket_labels = (fun res => (res, label_of res)) <$> target_resolutions.
Proof. reflexivity. Qed.

Lemma bucket_label_inv (res : Z) (label : string) :
  (res, label) ∈ bucket_labels ->
  res ∈ target_resolutions ∧ label = label_of res.
Proof.
  rewrite bucket_labels_eq.
  intros (r & [= -> ->] & Hr)%list_elem_of_fmap. auto.
Qed.

Lemma bucket_label_intro (res : Z) :
  res ∈ target_resolutions -> (res, label_of res) ∈ bucket_labels.
Proof.
  intros Hr. rewrite bucket_labels_eq. apply list_elem_of_fmap. eauto.
Qed.

(** X1.  The menu of [get_info], from the dictionary [resolution_formats]
    that the second loop leaves: for each bucket that holds a format, in
    ascending order, that format with its note set to the resolution
    followed by the letter p, its other fields being the stored ones; then
    the "Best quality" entry when no bucket holds a format; then the audio
    entry.  The notes are 144p to 2160p. *)
Theorem curate_menu (store : list MediaFormat) :
  let entry_of (res : Z) : option MediaFormat :=
    match dict_get res (assign_all store) with
    | Some (Some i) =>
        f ← store !! i;
        Some {| format_id := format_id f; ext := ext f;
                resolution := resolution f; filesize := filesize f;
                format_note := Some (py_str_int res +:+ "p");
                vcodec := vcodec f; acodec := acodec f |}
    | _ => None
    end in
  let held := omap entry_of target_resolutions in
  (curate store).2
  = held
    ++ match held with
       | [] => [best_quality]
       | _ => []
       end
    ++ [audio_only]
  ∧ (fun res => py_str_int res +:+ "p") <$> target_resolutions
    = ["144p"; "240p"; "360p"; "480p"; "720p"; "1080p"; "1440p"; "2160p"].
Proof.
  cbv zeta. split; [|reflexivity].
  rewrite curate_menu_eq. unfold bucket_entries.
  rewrite (omap_ext_in (bucket_entry store)
             (fun res =>
                match dict_get res (assign_all store) with
                | Some (Some i) =>
                    f ← store !! i;
                    Some {| format_id := format_id f; ext := ext f;
                            resolution := resolution f; filesize := filesize f;
                            format_note := Some (py_str_int res +:+ "p");
                            vcodec := vcodec f; acodec := acodec f |}
                | _ => None
                end) target_resolutions); [reflexivity|].
  intros res Hres. rewrite (assign_all_get store res Hres).
  unfold bucket_entry, holder.
  destruct (find (fits_at store res) (av_formats store)) as [i|];
    [|reflexivity].
  cbn [mbind option_bind]. destruct (store !! i); reflexivity.
Qed.

Section MenuCorollaries.

Implicit Types (store : list MediaFormat).

Lemma omap_length_le {A B} (f : A -> option B) (l : list A) :
  (length (omap f l) <= length l)%nat.
Proof.
  induction l as [|x l IH]; [reflexivity|].
  cbn [omap list_omap]. destruct (f x); cbn [length]; lia.
Qed.

Lemma collect_av_elem (fs : list MediaFormat) : forall k i,
  i ∈ collect_av k fs ->
  exists f, fs !! (i - k)%nat = Some f ∧ av_eligible f = true ∧ (k <= i)%nat.
Proof.
  induction fs as [|g fs IH]; intros k i; cbn [collect_av];
    [intros []%elem_of_nil|].
  destruct (av_eligible g) eqn:Hg.
  - intros [->|Hin]%elem_of_cons.
    + exists g. rewrite Nat.sub_diag. auto.
    + destruct (IH _ _ Hin) as (f & Hf & Hav & Hle).
      exists f. replace (i - k)%nat with (S (i - S k)) by lia. auto with lia.
  - intros Hin. destruct (IH _ _ Hin) as (f & Hf & Hav & Hle).
    exists f. replace (i - k)%nat with (S (i - S k)) by lia. auto with lia.
Qed.

Lemma holder_eligible store res i :
  holder store res = Some i ->
  exists f h, store !! i = Some f ∧ av_eligible f = true
              ∧ height_of f = Some h ∧ fits res h = true.
Proof.
  intros Hh. pose proof Hh as (f & h & Hf & Hhe & Hfit)%holder_fits.
  unfold holder in Hh. apply find_some in Hh as [Hin _].
  apply list_elem_of_In, collect_av_elem in Hin as (g & Hg & Hav & _).
  rewrite Nat.sub_0_r in Hg. exists f, h. repeat split; congruence.
Qed.

Lemma no_holder store res :
  (forall f h, f ∈ store -> av_eligible f = true -> height_of f = Some h ->
               fits res h = false) ->
  holder store res = None.
Proof.
  intros Hno. destruct (holder store res) as [i|] eqn:Hi; [|reflexivity].
  apply holder_eligible in Hi as (f & h & Hf & Hav & Hh & Hfit).
  rewrite (Hno f h) in Hfit; [discriminate| |assumption..].
  apply list_elem_of_lookup. eauto.
Qed.

End MenuCorollaries.

Lemma menu_bounds (store : list MediaFormat) :
  (2 <= length (curate store).2 <= 9)%nat
  ∧ last (curate store).2 = Some audio_only.
Proof.
  rewrite curate_menu_eq.
  pose proof (omap_length_le (bucket_entry store) target_resolutions) as Hle.
  fold (bucket_entries store) in Hle. change (length target_resolutions) with 8%nat in Hle.
  split.
  - rewrite !length_app.
    destruct (bucket_entries store); cbn [length] in *; lia.
  - rewrite app_assoc. apply last_snoc.
Qed.

(** X2.  The menu has at least two and at most nine entries, and the audio
    entry is its last one. *)
Theorem menu_size (store : list MediaFormat) :
  (2 <= length (curate store).2 <= 9)%nat
  ∧ last (curate store).2 = Some audio_only.
Proof. apply menu_bounds. Qed.

(** X3.  Every entry of the menu of [get_info] is the "Best quality" entry,
    the audio entry, or a stored format that passes the eligibility tests and
    has a height that can be read, with its note set to the label of a
    bucket: the smallest target resolution that is at least that height.  The
    other fields of the entry, the format id among them, are the stored
    ones. *)
Theorem menu_entries_are_eligible (store : list MediaFormat) (entry : MediaFormat) :
  entry ∈ (curate store).2 ->
  entry = best_quality ∨ entry = audio_only
  ∨ exists res label i f h,
      (res, label) ∈ bucket_labels
      ∧ store !! i = Some f
      ∧ av_eligible f = true
      ∧ height_of f = Some h
      ∧ h <= res
      ∧ (forall r, r ∈ target_resolutions -> r < res -> r < h)
      ∧ format_note entry = Some label
      ∧ format_id entry = format_id f
      ∧ ext entry = ext f
      ∧ resolution entry = resolution f
      ∧ filesize entry = filesize f
      ∧ vcodec entry = vcodec f
      ∧ acodec entry = acodec f.
Proof.
  rewrite curate_menu_eq, !elem_of_app.
  intros [Hbucket|[Hbest|Haudio]].
  - right. right. unfold bucket_entries in Hbucket.
    apply list_elem_of_omap in Hbucket as (res & Hres & He).
    unfold bucket_entry in He.
    destruct (holder store res) as [i|] eqn:Hi; [|discriminate].
    apply holder_eligible in Hi as (f & h & Hf & Hav & Hh & Hfit).
    cbn [mbind option_bind] in He. rewrite Hf in He. injection He as <-.
    apply fits_meaning in Hfit as [Hle Hsmall].
    exists res, (label_of res), i, f, h.
    split; [apply bucket_label_intro, Hres|].
    do 5 (split; [assumption|]).
    repeat split.
  - left. destruct (bucket_entries store); [|apply elem_of_nil in Hbest as []].
    apply list_elem_of_singleton in Hbest. exact Hbest.
  - right. left. apply list_elem_of_singleton in Haudio. exact Haudio.
Qed.

(** X4.  The curation writes nothing into a stored format but its note, and
    only for a format that [resolution_formats] holds in a bucket: that
    format gets the label of the bucket as its note, every other stored
    format keeps its note, and the list keeps its length. *)
Theorem curate_store_effect (store : list MediaFormat) (j : nat)
    (f : MediaFormat) :
  store !! j = Some f ->
  length (curate store).1 = length store
  ∧ exists f',
      (curate store).1 !! j = Some f'
      ∧ format_id f' = format_id f
      ∧ ext f' = ext f
      ∧ resolution f' = resolution f
      ∧ filesize f' = filesize f
      ∧ vcodec f' = vcodec f
      ∧ acodec f' = acodec f
      ∧ (forall res label,
            (res, label) ∈ bucket_labels ->
            dict_get res (assign_all store) = Some (Some j) ->
            format_note f' = Some label)
      ∧ ((forall res, dict_get res (assign_all store) <> Some (Some j)) ->
         format_note f' = format_note f).
Proof.
  intros Hf. split.
  - pose proof (f_equal length (label_all_shape (sorted_items (assign_all store)) store))
      as Hlen.
    rewrite !length_fmap in Hlen.
    unfold curate. rewrite curate_entries_eq. exact Hlen.
  - exists (renote (final_note (assign_all store) j) f).
    split; [rewrite curate_store_lookup, Hf; reflexivity|].
    do 6 (split; [destruct (final_note (assign_all store) j); reflexivity|]).
    split.
    + intros res label [Hres ->]%bucket_label_inv Hj.
      rewrite (assign_all_get store res Hres) in Hj. injection Hj as Hj.
      rewrite (final_note_holder store res j Hres Hj). reflexivity.
    + intros Hfree. rewrite (final_note_free store j); [reflexivity|].
      intros res Hres Hj. apply (Hfree res).
      rewrite (assign_all_get store res Hres). f_equal. exact Hj.
Qed.

(** X5.  When every eligible format with a readable height is higher than
    2160, no bucket is held: the menu is the "Best quality" entry and the
    audio entry, and the stored formats are left as they were. *)
Theorem above_largest_bucket_fallback (store : list MediaFormat) :
  (forall f h, f ∈ store -> av_eligible f = true -> height_of f = Some h ->
               2160 < h) ->
  curate store = (store, [best_quality; audio_only]).
Proof.
  intros Hhigh.
  assert (forall res, res ∈ target_resolutions -> holder store res = None) as Hnone.
  { intros res Hin. apply no_holder. intros f h Hf Hav Hh.
    specialize (Hhigh f h Hf Hav Hh).
    destruct (fits res h) eqn:Hfit; [|reflexivity].
    apply fits_meaning in Hfit as [Hle _].
    apply target_cases in Hin. lia. }
  assert (bucket_entries store = []) as Hempty.
  { unfold bucket_entries. generalize Hnone. generalize target_resolutions.
    intros l Hl. induction l as [|r l IH]; [reflexivity|].
    cbn [omap list_omap]. unfold bucket_entry at 1.
    rewrite (Hl r ltac:(left)). cbn [mbind option_bind].
    apply IH. intros res Hin. apply Hl. right. exact Hin. }
  apply injective_projections.
  - cbn [fst]. apply list_eq. intros j.
    rewrite curate_store_lookup, final_note_free.
    + destruct (store !! j); reflexivity.
    + intros res Hin. rewrite (Hnone res Hin). discriminate.
  - cbn [snd]. rewrite curate_menu_eq, Hempty. reflexivity.
Qed.

Lemma menu_entries_are_eligible_witness :
  let store := [example_format "A" "1280x700"; example_format "B" "200x150"] in
  let entry := mkFormat (Some "B") "mp4" "200x150" (Some None) (Some "240p")
                        (Some "avc1") (Some "mp4a") in
  entry = best_quality ∨ entry = audio_only
  ∨ exists res label i f h,
      (res, label) ∈ bucket_labels
      ∧ store !! i = Some f
      ∧ av_eligible f = true
      ∧ height_of f = Some h
      ∧ h <= res
      ∧ (forall r, r ∈ target_resolutions -> r < res -> r < h)
      ∧ format_note entry = Some label
      ∧ format_id entry = format_id f
      ∧ ext entry = ext f
      ∧ resolution entry = resolution f
      ∧ filesize entry = filesize f
      ∧ vcodec entry = vcodec f
      ∧ acodec entry = acodec f.
Proof.
  cbv zeta. apply menu_entries_are_eligible. vm_compute. left.
Defined.

Lemma curate_store_effect_witness :
  let store := [example_format "A" "1280x700"; example_format "B" "200x150"] in
  exists f',
    (curate store).1 !! 1%nat = Some f'
    ∧ format_id f' = Some "B"
    ∧ format_note f' = Some "240p".
Proof.
  cbv zeta.
  destruct (proj2 (curate_store_effect
                     [example_format "A" "1280x700"; example_format "B" "200x150"]
                     1%nat (example_format "B" "200x150") eq_refl))
    as (f' & Hf' & Hid & _ & _ & _ & _ & _ & Hnote & _).
  exists f'. split; [exact Hf'|]. split; [exact Hid|].
  apply (Hnote 240 "240p");
    [unfold bucket_labels; rewrite !elem_of_cons; tauto | reflexivity].
Defined.

Lemma above_largest_bucket_fallback_witness :
  curate [example_format "8K" "7680x4320"]
  = ([example_format "8K" "7680x4320"], [best_quality; audio_only]).
Proof.
  apply above_largest_bucket_fallback.
  intros f h Hf%list_elem_of_singleton _. subst f.
  vm_compute. intros [= <-]. reflexivity.
Defined.

(** ** From the provider's formats to the menu *)

Section ProviderFacts.

Lemma py_split_no_sep (sep : ascii) (s : string) :
  str_mem sep s = false -> py_split sep s = [s].
Proof.
  induction s as [|c s IH]; [reflexivity|].
  cbn [str_mem py_split]. rewrite Ascii.eqb_sym.
  destruct (Ascii.eqb c sep); [discriminate|].
  intros Hs. rewrite (IH Hs). reflexivity.
Qed.

Lemma py_split_append (sep : ascii) (w h : string) :
  str_mem sep w = false ->
  py_split sep (w +:+ String sep h) = w :: py_split sep h.
Proof.
  induction w as [|c w IH]; cbn [str_mem].
  - intros _. rewrite append_nil. cbn [py_split]. rewrite Ascii.eqb_refl. reflexivity.
  - rewrite Ascii.eqb_sym. destruct (Ascii.eqb c sep) eqn:Hc; [discriminate|].
    intros Hw. rewrite append_cons. cbn [py_split]. rewrite Hc, (IH Hw). reflexivity.
Qed.

Lemma str_mem_forallb (c : ascii) (p : ascii -> bool) (s : string) :
  p c = false -> str_forallb p s = true -> str_mem c s = false.
Proof.
  intros Hc. induction s as [|d s IH]; [reflexivity|].
  cbn [str_forallb str_mem]. intros [Hd Hs]%andb_true_iff.
  destruct (Ascii.eqb_spec c d) as [->|]; [congruence | auto].
Qed.

Lemma py_str_int_chars (n : Z) : str_forallb digit_or_minus (py_str_int n) = true.
Proof.
  assert (forall d, str_forallb digit_or_minus (NilEmpty.string_of_uint d) = true) as Hd.
  { intros d. apply (str_forallb_weaken is_ascii_digit); [|apply uint_digits].
    intros c Hc. unfold digit_or_minus. rewrite Hc. reflexivity. }
  destruct n as [|p|p].
  - reflexivity.
  - rewrite py_str_int_pos. apply Hd.
  - rewrite py_str_int_neg. cbn [str_forallb]. rewrite Hd. reflexivity.
Qed.

Lemma fstring_dim_no_x (v : option (option Z)) (s : string) :
  fstring_dim v = Some s -> str_mem "x" s = false.
Proof.
  destruct v as [[n|]|]; cbn [fstring_dim]; [|intros [= <-]; reflexivity..].
  unfold py_str_int_checked. destruct (_ <=? _)%nat; [|discriminate].
  intros [= <-]. generalize (py_str_int_chars n).
  apply str_mem_forallb. reflexivity.
Qed.

Lemma fstring_dim_unknown (v : option (option Z)) :
  fstring_dim v = Some "unknown" <-> v = None.
Proof.
  split; [|intros ->; reflexivity].
  destruct v as [[n|]|]; cbn [fstring_dim]; [|discriminate|reflexivity].
  unfold py_str_int_checked. destruct (_ <=? _)%nat; [|discriminate].
  intros [= Heq]. pose proof (py_str_int_chars n) as Hc.
  rewrite Heq in Hc. discriminate Hc.
Qed.

Lemma fstring_dim_int (v : option (option Z)) (s : string) :
  fstring_dim v = Some s -> py_int s = mjoin v.
Proof.
  destruct v as [[n|]|]; cbn [fstring_dim mjoin option_join];
    [apply py_int_str_int | intros [= <-]; reflexivity..].
Qed.

Lemma resolution_split (w h : string) :
  str_mem "x" w = false -> str_mem "x" h = false ->
  py_split "x" (w +:+ "x" +:+ h) = [w; h].
Proof.
  intros Hw Hh. change ("x" +:+ h) with (String "x" h).
  rewrite (py_split_append "x" w h Hw), (py_split_no_sep "x" h Hh). reflexivity.
Qed.

Lemma info_format_inv (pf : ProviderFormat) (f : MediaFormat) :
  info_format pf = Some f ->
  exists w h,
    fstring_dim (pf_width pf) = Some w ∧ fstring_dim (pf_height pf) = Some h
    ∧ f = {| format_id := pf_format_id pf;
             ext := default "" (pf_ext pf);
             resolution := w +:+ "x" +:+ h;
             filesize := Some (pf_filesize pf);
             format_note := get_or "" (pf_format_note pf);
             vcodec := get_or "unknown" (pf_vcodec pf);
             acodec := get_or "unknown" (pf_acodec pf) |}.
Proof.
  unfold info_format.
  destruct (fstring_dim (pf_width pf)) as [w|]; [|discriminate].
  destruct (fstring_dim (pf_height pf)) as [h|]; [|discriminate].
  cbn [mbind option_bind]. intros [= <-]. eauto.
Qed.

Lemma get_or_none (d : string) (v : option (option string)) :
  d <> "none" -> (get_or d v = Some "none" <-> v = Some (Some "none")).
Proof.
  intros Hd. destruct v as [[x|]|]; cbn [get_or]; split; congruence.
Qed.

Lemma resolution_unknown (pf : ProviderFormat) (w h : string) :
  fstring_dim (pf_width pf) = Some w -> fstring_dim (pf_height pf) = Some h ->
  (w +:+ "x" +:+ h = "unknownxunknown"
   <-> pf_width pf = None ∧ pf_height pf = None).
Proof.
  intros Hw Hh. split.
  - intros Heq. apply (f_equal (py_split "x")) in Heq.
    rewrite (resolution_split w h (fstring_dim_no_x _ _ Hw) (fstring_dim_no_x _ _ Hh))
      in Heq.
    change (py_split "x" "unknownxunknown") with ["unknown"; "unknown"] in Heq.
    injection Heq as -> ->.
    split; apply fstring_dim_unknown; assumption.
  - intros [Hpw Hph]. rewrite Hpw in Hw. rewrite Hph in Hh.
    injection Hw as <-. injection Hh as <-. reflexivity.
Qed.

End ProviderFacts.

(** X6.  The height that the resolver reads in the resolution string of a
    format is the integer height that the provider gave, and there is none to
    read when the provider gave [None] or no height at all. *)
Theorem provider_height_read_back (pf : ProviderFormat) (f : MediaFormat) :
  info_format pf = Some f -> height_of f = mjoin (pf_height pf).
Proof.
  intros (w & h & Hw & Hh & ->)%info_format_inv.
  unfold height_of. cbn [resolution].
  rewrite (resolution_split w h (fstring_dim_no_x _ _ Hw) (fstring_dim_no_x _ _ Hh)).
  change ([w; h] !! 1%nat) with (Some h).
  apply fstring_dim_int, Hh.
Qed.

(** X7.  A format built by [get_video_info] passes the eligibility tests of
    [get_info] exactly when the provider's video and audio codecs are not the
    string "none", the container is mp4 or webm, and the width or the height
    key is present: a codec or a dimension whose value is [None] does not
    exclude the format. *)
Theorem provider_eligibility (pf : ProviderFormat) (f : MediaFormat) :
  listed pf = true ->
  info_format pf = Some f ->
  (av_eligible f = true
   <-> pf_vcodec pf <> Some (Some "none")
       ∧ pf_acodec pf <> Some (Some "none")
       ∧ ~ (pf_width pf = None ∧ pf_height pf = None)
       ∧ (pf_ext pf = Some "mp4" ∨ pf_ext pf = Some "webm")).
Proof.
  intros Hl (w & h & Hw & Hh & ->)%info_format_inv.
  rewrite av_eligible_spec. cbn [vcodec acodec resolution ext].
  rewrite (resolution_unknown pf w h Hw Hh).
  rewrite !get_or_none by discriminate.
  unfold listed in Hl. destruct (pf_ext pf) as [e|]; [|discriminate].
  cbn [default from_option id].
  split; intros (Hv & Ha & Hr & He); repeat split; auto.
  - destruct He as [->| ->]; auto.
  - destruct He as [[= ->]|[= ->]]; auto.
Qed.

(** ** More on the URL classifier *)

Section ClassifierMore.

Variable chk : string -> bool.

Implicit Types (table : list (string * platform_config)).

Lemma validate_loop_true table (h url : string) :
  validate_loop table h url = true ->
  exists n c, (n, c) ∈ table ∧ any_domain h (domains c) = true
              ∧ any_pattern (patterns c) url = true.
Proof.
  induction table as [|[n0 c0] table IH]; cbn [validate_loop]; [discriminate|].
  destruct (any_domain h (domains c0)) eqn:Hd.
  - destruct (any_pattern (patterns c0) url) eqn:Hp.
    + intros _. exists n0, c0. split; [left | auto].
    + intros (n & c & Hin & H)%IH. exists n, c. split; [right; exact Hin | exact H].
  - intros (n & c & Hin & H)%IH. exists n, c. split; [right; exact Hin | exact H].
Qed.

Lemma validate_url_true (url : string) :
  validate_url chk url = Some true ->
  exists h n c,
    hostname_of chk url = Some h ∧ (n, c) ∈ platform_table ∧ h ∈ domains c
    ∧ any_pattern (patterns c) url = true.
Proof.
  unfold validate_url. destruct (hostname_of chk url) as [h|]; [|discriminate].
  intros Hv. change (Some (validate_loop platform_table h url) = Some true) in Hv.
  assert (validate_loop platform_table h url = true) as Hv'
    by congruence.
  apply validate_loop_true in Hv' as (n & c & Hin & Hd & Hp).
  exists h, n, c. split; [reflexivity|]. split; [exact Hin|].
  split; [apply any_domain_elem, Hd | exact Hp].
Qed.

Lemma table_names (n : string) (c : platform_config) :
  (n, c) ∈ platform_table -> n ∈ platform_tags.
Proof.
  unfold platform_table, platform_tags.
  rewrite !elem_of_cons, !elem_of_nil.
  intros H. repeat destruct H as [H|H]; try contradiction;
    injection H as -> _; tauto.
Qed.

Lemma unknown_host (url h : string) :
  hostname_of chk url = Some h ->
  (forall n c, (n, c) ∈ platform_table -> h ∉ domains c) ->
  validate_url chk url = Some false ∧ get_platform chk url = Some "unknown".
Proof.
  intros Hh Hout. split.
  - unfold validate_url. rewrite Hh. cbn [mbind option_bind]. f_equal.
    apply validate_loop_false. intros n c Hin Hd.
    apply any_domain_elem in Hd. exfalso. exact (Hout n c Hin Hd).
  - unfold get_platform. rewrite Hh. cbn [mbind option_bind]. f_equal.
    assert (Forall (fun e => str_in h (domains e.2) = false) platform_table) as Hno.
    { apply Forall_forall. intros [n c] Hin. cbn [snd].
      destruct (str_in h (domains c)) eqn:Hs; [|reflexivity].
      apply str_in_elem in Hs. exfalso. exact (Hout n c Hin Hs). }
    unfold platform_table in Hno.
    repeat (apply Forall_cons in Hno as [? Hno]).
    cbn [snd domains] in *.
    repeat match goal with H : str_in h _ = false |- _ => rewrite H; clear H end.
    reflexivity.
Qed.

End ClassifierMore.

Lemma lower_keeps_colon (c : ascii) :
  Ascii.eqb ":" (py_lower_char c) = Ascii.eqb ":" c.
Proof. destruct c as [[] [] [] [] [] [] [] []]; reflexivity. Qed.

Lemma lower_keeps_at (c : ascii) :
  Ascii.eqb "@" (py_lower_char c) = Ascii.eqb "@" c.
Proof. destruct c as [[] [] [] [] [] [] [] []]; reflexivity. Qed.

Lemma str_mem_lower (d : ascii) (s : string) :
  (forall c, Ascii.eqb d (py_lower_char c) = Ascii.eqb d c) ->
  str_mem d (py_lower s) = str_mem d s.
Proof.
  intros Hd. induction s as [|c s IH]; [reflexivity|].
  cbn [py_lower str_map str_mem]. fold (py_lower s). rewrite Hd, IH. reflexivity.
Qed.

Lemma listed_host_plain (h n : string) (c : platform_config) :
  (n, c) ∈ platform_table -> h ∈ domains c ->
  str_mem ":" h = false ∧ str_mem "@" h = false ∧ h <> "".
Proof.
  intros Hin Hh. unfold platform_table in Hin.
  rewrite !elem_of_cons, elem_of_nil in Hin.
  repeat destruct Hin as [Hin|Hin]; try contradiction;
    injection Hin as -> ->; cbn [domains] in Hh;
    rewrite !elem_of_cons, elem_of_nil in Hh;
    repeat destruct Hh as [Hh|Hh]; try contradiction; subst;
    repeat split; discriminate.
Qed.

Lemma contains_intro (lit : string) : forall s0 t,
  str_contains lit (s0 +:+ lit +:+ t) = true.
Proof.
  assert (forall t, py_startswith lit (lit +:+ t) = true) as Hstart.
  { intros t. induction lit as [|c l IH]; [reflexivity|].
    rewrite append_cons. cbn [py_startswith]. rewrite Ascii.eqb_refl. exact IH. }
  induction s0 as [|c s0 IH]; intros t.
  - rewrite append_nil. destruct (lit +:+ t) eqn:Heq;
      cbn [str_contains]; rewrite <- ?Heq, Hstart; reflexivity.
  - rewrite append_cons. cbn [str_contains]. rewrite IH. apply orb_true_r.
Qed.

Lemma search_literal (lit : string) (r : regex) (s : string) :
  re_search (Cat (Regex.lit lit) r) s = true -> str_contains lit s = true.
Proof.
  intros (s0 & s1 & s2 & -> & Hm)%re_search_correct.
  inversion Hm as [| |? ? a b Ha Hb| | | |]; subst.
  apply lit_matches in Ha. subst a.
  rewrite append_assoc. apply contains_intro.
Qed.

Lemma search_literal_alt (l1 l2 : string) (r1 r : regex) (s : string) :
  re_search (Cat (Alt (Regex.lit l1) (Cat (Regex.lit l2) r1)) r) s = true ->
  str_contains l1 s = true ∨ str_contains l2 s = true.
Proof.
  intros (s0 & s1 & s2 & -> & Hm)%re_search_correct.
  inversion Hm as [| |? ? a b Ha Hb| | | |]; subst.
  inversion Ha as [| | |? ? ? Hl|? ? ? Hr| |]; subst.
  - apply lit_matches in Hl. subst a. left.
    rewrite append_assoc. apply contains_intro.
  - inversion Hr as [| |? ? a1 a2 Ha1 Ha2| | | |]; subst.
    apply lit_matches in Ha1. subst a1. right.
    rewrite !append_assoc. apply contains_intro.
Qed.

Lemma startswith_weaken (a b : string) : forall s,
  py_startswith (a +:+ b) s = true -> py_startswith a s = true.
Proof.
  induction a as [|c a IH]; intros s; [reflexivity|].
  rewrite append_cons. destruct s as [|d s]; cbn [py_startswith]; [discriminate|].
  intros [Hc Hs]%andb_true_iff. rewrite Hc. exact (IH s Hs).
Qed.

Lemma contains_weaken (a b s : string) :
  str_contains (a +:+ b) s = true -> str_contains a s = true.
Proof.
  induction s as [|c s IH]; cbn [str_contains].
  - rewrite !orb_false_r. apply startswith_weaken.
  - intros [H|H]%orb_true_iff.
    + rewrite (startswith_weaken a b _ H). reflexivity.
    + rewrite (IH H). apply orb_true_r.
Qed.

Ltac pick_text l Hs :=
  match l with
  | cons ?t ?l' =>
      first [ exists t; split;
              [ rewrite !elem_of_cons; tauto
              | refine (contains_weaken t _ _ Hs) ]
            | pick_text l' Hs ]
  end.

Lemma pattern_literal (url n : string) (c : platform_config) :
  (n, c) ∈ platform_table -> any_pattern (patterns c) url = true ->
  exists text, text ∈ required_text n ∧ str_contains text url = true.
Proof.
  intros Hin (p & Hp & Hs)%any_pattern_true.
  unfold platform_table in Hin.
  rewrite !elem_of_cons, elem_of_nil in Hin.
  repeat destruct Hin as [Hin|Hin]; try contradiction;
    injection Hin as -> ->; cbn [patterns] in Hp;
    match type of Hp with
    | p ∈ ?l => let l' := eval hnf in l in change (p ∈ l') in Hp
    end;
    rewrite !elem_of_cons, elem_of_nil in Hp;
    repeat destruct Hp as [Hp|Hp]; try contradiction; subst p;
    match goal with
    | |- exists text, text ∈ required_text ?n ∧ _ =>
        let l := eval vm_compute in (required_text n) in
        change (required_text n) with l;
        first
          [ apply search_literal_alt in Hs as [Hs|Hs]; pick_text l Hs
          | apply search_literal in Hs; pick_text l Hs ]
    end.
Qed.

(** X8.  A URL whose lower-cased host is on no allow-list is refused by
    [validate_url], and [get_platform] gives it the tag [unknown]. *)
Theorem unlisted_host_unknown (chk : string -> bool) (url hostname : string) :
  hostname_of chk url = Some hostname ->
  (forall name config, (name, config) ∈ platform_table ->
                       hostname ∉ domains config) ->
  validate_url chk url = Some false ∧ get_platform chk url = Some "unknown".
Proof. apply unknown_host. Qed.

Lemma unlisted_host_unknown_witness :
  validate_url (fun _ => true) "https://vimeo.com/watch?v=abc" = Some false
  ∧ get_platform (fun _ => true) "https://vimeo.com/watch?v=abc" = Some "unknown".
Proof.
  apply (unlisted_host_unknown (fun _ => true) _ "vimeo.com"); [reflexivity|].
  intros name config Hin Hd. unfold platform_table in Hin.
  rewrite !elem_of_cons, elem_of_nil in Hin.
  repeat destruct Hin as [Hin|Hin]; try contradiction;
    injection Hin as -> ->; cbn [domains] in Hd;
    rewrite !elem_of_cons, elem_of_nil in Hd;
    repeat destruct Hd as [Hd|Hd]; try contradiction; discriminate Hd.
Defined.

(** X9.  A URL that [validate_url] accepts has a host on the allow-list of
    one of the six platforms, and [get_platform] returns the tag of that
    platform: after validation the tag is never [unknown]. *)
Theorem validated_platform_known (chk : string -> bool) (url : string) :
  validate_url chk url = Some true ->
  exists hostname name config,
    hostname_of chk url = Some hostname
    ∧ (name, config) ∈ platform_table
    ∧ hostname ∈ domains config
    ∧ get_platform chk url = Some name
    ∧ name ∈ platform_tags
    ∧ name <> "unknown".
Proof.
  intros (h & n & c & Hh & Hin & Hd & _)%validate_url_true.
  exists h, n, c.
  destruct (get_platform_owner chk url h n c Hh Hin Hd) as [Hp Hn].
  repeat split; try assumption. exact (table_names n c Hin).
Qed.

Lemma validated_platform_known_witness :
  exists hostname name config,
    hostname_of (fun _ => true) "https://x.com/user/status/12345" = Some hostname
    ∧ (name, config) ∈ platform_table
    ∧ hostname ∈ domains config
    ∧ get_platform (fun _ => true) "https://x.com/user/status/12345" = Some name
    ∧ name ∈ platform_tags
    ∧ name <> "unknown".
Proof.
  apply validated_platform_known. vm_compute. reflexivity.
Defined.

(** X10.  A URL that [validate_url] accepts contains, in lower case, the text
    that a pattern of its platform starts with: [youtu.be/] or
    [youtube.com/] for YouTube, [facebook.com/] or [fb.watch/] for Facebook,
    and so on.  So a URL whose host is written in capitals, or whose host is
    [fb.com], is accepted only if that text occurs somewhere else in it. *)
Theorem accepted_url_contains_text (chk : string -> bool) (url : string) :
  validate_url chk url = Some true ->
  exists name text,
    get_platform chk url = Some name
    ∧ text ∈ required_text name
    ∧ str_contains text url = true.
Proof.
  intros (h & n & c & Hh & Hin & Hd & Hp)%validate_url_true.
  destruct (get_platform_owner chk url h n c Hh Hin Hd) as [Hg _].
  destruct (pattern_literal url n c Hin Hp) as (text & Ht & Hc).
  exists n, text. auto.
Qed.

Lemma accepted_url_contains_text_witness :
  exists name text,
    get_platform (fun _ => true) "https://fb.com/?u=fb.watch/abc" = Some name
    ∧ text ∈ required_text name
    ∧ str_contains text "https://fb.com/?u=fb.watch/abc" = true.
Proof.
  apply accepted_url_contains_text. vm_compute. reflexivity.
Defined.

(** X11.  A URL whose host part is empty, or holds a colon or an at sign (a
    port, credentials), is refused by [validate_url] and tagged [unknown]. *)
Theorem port_or_credentials_rejected (chk : string -> bool) (url : string)
    (r : SplitResult) :
  urlsplit chk url = Some r ->
  netloc r = "" ∨ str_mem ":" (netloc r) = true ∨ str_mem "@" (netloc r) = true ->
  validate_url chk url = Some false ∧ get_platform chk url = Some "unknown".
Proof.
  intros Hr Hbad.
  apply (unknown_host chk url (py_lower (netloc r))).
  - unfold hostname_of. rewrite Hr. reflexivity.
  - intros n c Hin Hd.
    destruct (listed_host_plain _ n c Hin Hd) as (Hcolon & Hat & Hne).
    rewrite (str_mem_lower ":" _ lower_keeps_colon) in Hcolon.
    rewrite (str_mem_lower "@" _ lower_keeps_at) in Hat.
    destruct Hbad as [He|[Hc|Ha]]; [|congruence..].
    rewrite He in Hne. exact (Hne eq_refl).
Qed.

Lemma port_or_credentials_rejected_witness :
  validate_url (fun _ => true) "https://www.youtube.com:443/watch?v=abc"
  = Some false
  ∧ get_platform (fun _ => true) "https://www.youtube.com:443/watch?v=abc"
    = Some "unknown".
Proof.
  eapply (port_or_credentials_rejected (fun _ => true)); [reflexivity|].
  right. left. reflexivity.
Defined.

Lemma provider_height_read_back_witness :
  height_of (mkFormat (Some "18") "mp4" "640x360" (Some (Some 4096))
                      (Some "360p") (Some "avc1") (Some "mp4a"))
  = Some 360.
Proof.
  apply (provider_height_read_back provider_360). reflexivity.
Defined.

Lemma provider_eligibility_witness :
  av_eligible (mkFormat (Some "18") "mp4" "640x360" (Some (Some 4096))
                        (Some "360p") (Some "avc1") (Some "mp4a")) = true.
Proof.
  apply (provider_eligibility provider_360); [reflexivity | reflexivity|].
  repeat split; try discriminate; [intros [? ?]; discriminate | left; reflexivity].
Defined.

Section VideoInfoFacts.

Lemma info_formats_of_inv (pfs : list ProviderFormat) : forall fs,
  info_formats_of pfs = Some fs ->
  Forall2 (fun pf f => info_format pf = Some f)
          (filter (fun pf => listed pf = true) pfs) fs.
Proof.
  induction pfs as [|pf pfs IH]; intros fs; cbn [info_formats_of].
  - intros [= <-]. constructor.
  - rewrite filter_cons. destruct (listed pf) eqn:Hl.
    + rewrite decide_True by reflexivity.
      destruct (info_format pf) as [f|] eqn:Hf; [|discriminate].
      destruct (info_formats_of pfs) as [fs'|]; [|discriminate].
      cbn [mbind option_bind]. intros [= <-]. constructor; auto.
    + rewrite decide_False by discriminate. apply IH.
Qed.

Lemma info_formats_of_none (pfs : list ProviderFormat) :
  info_formats_of pfs = None
  <-> exists pf, pf ∈ pfs ∧ listed pf = true ∧ info_format pf = None.
Proof.
  induction pfs as [|pf pfs IH]; cbn [info_formats_of].
  - split; [discriminate | intros (? & []%elem_of_nil & _)].
  - destruct (listed pf) eqn:Hl.
    + destruct (info_format pf) as [f|] eqn:Hf; cbn [mbind option_bind].
      * destruct (info_formats_of pfs) as [fs|]; cbn [mbind option_bind].
        -- split; [discriminate|].
           intros (q & [->|Hq]%elem_of_cons & Hlq & Hn); [congruence|].
           assert (Some fs = None) as Habs by (apply IH; eauto).
           discriminate Habs.
        -- split; [|reflexivity]. intros _.
           destruct (proj1 IH eq_refl) as (q & Hq & H).
           exists q. split; [right; exact Hq | exact H].
      * split; [|reflexivity]. intros _. exists pf. split; [left | auto].
    + rewrite IH. split.
      * intros (q & Hq & H). exists q. split; [right; exact Hq | exact H].
      * intros (q & [->|Hq]%elem_of_cons & Hlq & Hn); [congruence|]. eauto.
Qed.

Lemma listed_format_fields (pf : ProviderFormat) (f : MediaFormat) :
  listed pf = true -> info_format pf = Some f ->
  ext f ∈ ["mp4"; "webm"; "mkv"; "m4a"; "mp3"]
  ∧ format_note f <> Some "storyboard".
Proof.
  intros Hl (w & h & _ & _ & ->)%info_format_inv.
  unfold listed in Hl. destruct (pf_ext pf) as [e|]; [|discriminate].
  apply andb_true_iff in Hl as [He Hn].
  apply bool_decide_eq_true in He. apply negb_true_iff, bool_decide_eq_false in Hn.
  cbn [ext format_note default from_option id]. split; [exact He|].
  intros Hs. apply Hn. destruct (pf_format_note pf) as [[x|]|];
    cbn [get_or] in Hs; cbn [mjoin option_join]; congruence.
Qed.

End VideoInfoFacts.

(** X12.  The formats that [get_video_info] returns are those of the provider
    whose container is mp4, webm, mkv, m4a or mp3 and whose note is not
    [storyboard], in the provider's order, one dictionary for each; every
    returned format has such a container and no storyboard note.  Building
    the list fails only when such a format has a dimension that Python
    refuses to print. *)
Theorem video_info_formats (pfs : list ProviderFormat) :
  (forall fs, info_formats_of pfs = Some fs ->
     Forall2 (fun pf f => info_format pf = Some f)
             (filter (fun pf => listed pf = true) pfs) fs
     ∧ Forall (fun f => ext f ∈ ["mp4"; "webm"; "mkv"; "m4a"; "mp3"]
                        ∧ format_note f <> Some "storyboard") fs)
  ∧ (info_formats_of pfs = None
     <-> exists pf, pf ∈ pfs ∧ listed pf = true ∧ info_format pf = None).
Proof.
  split; [|apply info_formats_of_none].
  intros fs Hfs. pose proof (info_formats_of_inv pfs fs Hfs) as H2.
  split; [exact H2|].
  assert (Forall (fun pf => listed pf = true)
                 (filter (fun pf => listed pf = true) pfs)) as Hl.
  { apply Forall_forall. intros pf Hin. apply list_elem_of_filter in Hin as [H _]. exact H. }
  clear Hfs. revert Hl. induction H2 as [|pf f l fs' Hf _ IH]; intros Hl; [constructor|].
  apply Forall_cons in Hl as [Hhd Htl]. constructor.
  - exact (listed_format_fields pf f Hhd Hf).
  - exact (IH Htl).
Qed.

Lemma video_info_formats_witness :
  Forall (fun f => ext f ∈ ["mp4"; "webm"; "mkv"; "m4a"; "mp3"]
                   ∧ format_note f <> Some "storyboard")
         [mkFormat (Some "18") "mp4" "640x360" (Some (Some 4096))
                   (Some "360p") (Some "avc1") (Some "mp4a")].
Proof.
  apply (proj1 (video_info_formats (pi_formats provider_info)) _ eq_refl).
Defined.

Section InfoFacts.

Variable chk : string -> bool.

Lemma get_info_ok_inv (form_url : option string) (r : extract_result)
    t th d p fs :
  get_info chk form_url r = InfoOk t th d p fs ->
  exists url info fs0,
    form_url = Some url ∧ validate_url chk url = Some true
    ∧ get_platform chk url = Some p ∧ r = ExtractOk info
    ∧ info_formats_of (pi_formats info) = Some fs0
    ∧ t = pi_title info ∧ th = pi_thumbnail info ∧ d = pi_duration info
    ∧ fs = (curate fs0).2.
Proof.
  unfold get_info. destruct (falsy form_url) eqn:Hf; [discriminate|].
  destruct form_url as [url|]; [|discriminate]. cbn [default from_option id].
  destruct (validate_url chk url) as [[]|] eqn:Hv; try discriminate.
  destruct (get_platform chk url) as [p0|] eqn:Hp; [|discriminate].
  unfold get_video_info. destruct r as [info| |]; try discriminate.
  destruct (info_formats_of (pi_formats info)) as [fs0|] eqn:Hfs; [|discriminate].
  cbn [vi_title vi_thumbnail vi_duration vi_formats].
  intros [= <- <- <- <- <-]. exists url, info, fs0. repeat split; auto.
Qed.

End InfoFacts.

(** X13.  A successful answer of [get_info] carries one of the six platform
    tags and a menu of two to nine formats that ends with the audio entry; it
    is given only for a URL that [validate_url] accepts and a provider
    answer that could be listed, and then it is always given. *)
Theorem get_info_success (chk : string -> bool) (form_url : option string)
    (r : extract_result) :
  (forall t th d p fs,
      get_info chk form_url r = InfoOk t th d p fs ->
      p ∈ platform_tags
      ∧ (2 <= length fs <= 9)%nat
      ∧ last fs = Some audio_only
      ∧ exists url info fs0,
          form_url = Some url ∧ validate_url chk url = Some true
          ∧ r = ExtractOk info
          ∧ info_formats_of (pi_formats info) = Some fs0
          ∧ fs = (curate fs0).2)
  ∧ (forall url info fs0,
        form_url = Some url -> validate_url chk url = Some true ->
        r = ExtractOk info ->
        info_formats_of (pi_formats info) = Some fs0 ->
        exists p,
          get_info chk form_url r
          = InfoOk (pi_title info) (pi_thumbnail info) (pi_duration info) p
                   (curate fs0).2).
Proof.
  split.
  - intros t th d p fs
      (url & info & fs0 & -> & Hv & Hp & -> & Hfs & _ & _ & _ & ->)%get_info_ok_inv.
    apply validate_url_true in Hv as Hv'.
    destruct Hv' as (h & n & c & Hh & Hin & Hd & _).
    destruct (get_platform_owner chk url h n c Hh Hin Hd) as [Hp' _].
    assert (p = n) as -> by congruence.
    split; [exact (table_names n c Hin)|].
    destruct (menu_bounds fs0) as [Hlen Hlast].
    split; [exact Hlen|]. split; [exact Hlast|].
    exists url, info, fs0. auto.
  - intros url info fs0 -> Hv -> Hfs.
    apply validate_url_true in Hv as Hv'.
    destruct Hv' as (h & n & c & Hh & Hin & Hd & _).
    destruct (get_platform_owner chk url h n c Hh Hin Hd) as [Hp' _].
    exists n. unfold get_info.
    assert (falsy (Some url) = false) as ->.
    { cbn [falsy]. destruct url; [|reflexivity].
      rewrite validate_url_empty in Hv. discriminate. }
    cbn [default from_option id]. rewrite Hv, Hp'.
    unfold get_video_info. rewrite Hfs. reflexivity.
Qed.

Lemma get_info_success_witness :
  exists p,
    get_info (fun _ => true) (Some "https://youtu.be/abc123") (ExtractOk provider_info)
    = InfoOk (Some "Clip") None (Some 12) p
        (curate [mkFormat (Some "18") "mp4" "640x360" (Some (Some 4096))
                          (Some "360p") (Some "avc1") (Some "mp4a")]).2.
Proof.
  apply (proj2 (get_info_success (fun _ => true) (Some "https://youtu.be/abc123")
                  (ExtractOk provider_info))
           "https://youtu.be/abc123" provider_info);
    [reflexivity | vm_compute; reflexivity | reflexivity | reflexivity].
Defined.

(** ** More on the job table *)

Section JobMore.

Variable chk : string -> bool.
Variable tmp : string.

Lemma valid_url_platform (url : string) :
  validate_url chk url = Some true ->
  exists p, get_platform chk url = Some p ∧ p ∈ platform_tags.
Proof.
  intros (h & n & c & Hh & Hin & Hd & _)%validate_url_true.
  destruct (get_platform_owner chk url h n c Hh Hin Hd) as [Hp _].
  exists n. split; [exact Hp | exact (table_names n c Hin)].
Qed.

Lemma valid_fields_not_falsy (url format_id : string) :
  validate_url chk url = Some true -> format_id <> "" ->
  falsy (Some url) || falsy (Some format_id) = false.
Proof.
  intros Hv Hf. cbn [falsy].
  assert (url <> "") as Hu
    by (intros ->; rewrite validate_url_empty in Hv; discriminate).
  apply String.eqb_neq in Hu, Hf. rewrite Hu, Hf. reflexivity.
Qed.

Lemma run_cons (st : State) (r : request) (reqs : list request) :
  run chk tmp st (r :: reqs) = run chk tmp (handle chk tmp st r).1 reqs.
Proof. reflexivity. Qed.

(** Every handler keeps [job_ok]. *)
Lemma download_job_ok (u f : option string) (env : DownloadEnv) (st : State) :
  (forall k j, downloads st !! k = Some j -> job_ok chk tmp k j) ->
  forall k j, downloads (download chk tmp u f env st).1.1 !! k = Some j ->
               job_ok chk tmp k j.
Proof.
  intros Hinv k j. unfold download.
  destruct (falsy u || falsy f) eqn:Hfalsy; [apply Hinv|].
  apply orb_false_iff in Hfalsy as [Hu Hf].
  destruct u as [url|]; [|discriminate]. destruct f as [format_id|]; [|discriminate].
  cbn [default from_option id falsy] in *.
  apply String.eqb_neq in Hf.
  destruct (validate_url chk url) as [[]|] eqn:Hv; try apply Hinv.
  destruct (get_platform chk url); [|apply Hinv].
  destruct (extract_info env) as [info|]; [|apply Hinv].
  destruct (find_selected format_id (info_formats info)) as [[selected filesize] ext0].
  destruct (build_opts (os_path_join tmp (uuid4 env)) format_id selected ext0)
    as [opts ext].
  assert (forall stat, stat = "downloading" ∨ stat = "completed" ->
            job_ok chk tmp (uuid4 env)
              (mkJob url format_id (os_path_join tmp (uuid4 env) +:+ "." +:+ ext)
                     ext stat)) as Hnew.
  { intros stat Hs. unfold job_ok. cbn [status output_file job_ext job_url job_format_id].
    auto. }
  destruct (ydl_download env); [destruct (commit env)|];
    cbn [fst downloads set_status status output_file job_ext job_url job_format_id];
    rewrite ?insert_insert_eq;
    (destruct (decide (uuid4 env = k)) as [<-|Hne];
     [rewrite lookup_insert_eq; intros [= <-]; apply Hnew; auto
     |rewrite lookup_insert_ne by exact Hne; apply Hinv]).
Qed.

Lemma run_job_ok (reqs : list request) : forall st,
  (forall k j, downloads st !! k = Some j -> job_ok chk tmp k j) ->
  forall k j, downloads (run chk tmp st reqs) !! k = Some j -> job_ok chk tmp k j.
Proof.
  induction reqs as [|r reqs IH]; intros st Hinv; [exact Hinv|].
  rewrite run_cons. apply IH.
  destruct r as [u f env|i env]; cbn [handle fst].
  - apply download_job_ok, Hinv.
  - exact Hinv.
Qed.

End JobMore.

(** X14.  A submission whose download succeeds leaves a completed job under
    the id that it drew, with the URL, the format and an output file named
    after the id in [temp_dir]; it is answered with that id when the commit
    succeeds.  After any further requests that draw other ids, [get_file]
    sends that output file, under a name that starts with the platform tag,
    whenever the title can be fetched and the file sent. *)
Theorem completed_download_is_served (chk : string -> bool) (tmp : string)
    (st : State) (url format_id : string) (env : DownloadEnv) (info : Info)
    (reqs : list request) :
  validate_url chk url = Some true ->
  format_id <> "" ->
  extract_info env = Returns info ->
  ydl_download env = Returns () ->
  Forall (fun r => drawn_id r ≠ Some (uuid4 env)) reqs ->
  let result := download chk tmp (Some url) (Some format_id) env st in
  let st' := run chk tmp result.1.1 reqs in
  exists job p,
    downloads st' !! uuid4 env = Some job
    ∧ status job = "completed"
    ∧ job_url job = url
    ∧ job_format_id job = format_id
    ∧ output_file job = os_path_join tmp (uuid4 env) +:+ "." +:+ job_ext job
    ∧ get_platform chk url = Some p
    ∧ p ∈ platform_tags
    ∧ (commit env = Returns () -> result.1.2 = JsonSuccess (uuid4 env))
    ∧ forall genv ginfo gtitle,
        gf_extract_info genv = Returns ginfo ->
        default (Some "video") (info_title ginfo) = Some gtitle ->
        gf_send_file genv = Returns () ->
        (get_file chk (uuid4 env) genv st').1
        = SendFile (output_file job)
            (p +:+ "_" +:+ sanitize_title gtitle +:+ "." +:+ job_ext job)
            (mimetype_of (job_ext job)).
Proof.
  intros Hv Hf He Hd Hfresh result st'.
  destruct (valid_url_platform chk url Hv) as (p & Hp & Htag).
  pose proof (valid_fields_not_falsy chk url format_id Hv Hf) as Hfalsy.
  subst st'. subst result. unfold download.
  rewrite Hfalsy. cbn [from_option id]. rewrite Hv, Hp, He.
  destruct (find_selected format_id (info_formats info)) as [[selected filesize] ext0].
  destruct (build_opts (os_path_join tmp (uuid4 env)) format_id selected ext0)
    as [opts ext].
  rewrite Hd.
  set (pending := mkJob url format_id
                    (os_path_join tmp (uuid4 env) +:+ "." +:+ ext) ext "downloading").
  set (job := set_status "completed" pending).
  assert (forall hist,
            downloads (run chk tmp
              {| downloads := <[uuid4 env := job]> (<[uuid4 env := pending]> (downloads st));
                 history := hist |} reqs) !! uuid4 env = Some job) as Hkeep.
  { intros hist. rewrite (run_keeps chk tmp reqs _ _ Hfresh).
    apply lookup_insert_eq. }
  exists job, p.
  destruct (commit env) as [[]|cmsg]; cbn [fst snd history downloads];
    (split; [apply Hkeep|]);
    do 6 (split; [first [reflexivity | assumption]|]);
    (split; [intros; first [reflexivity | discriminate]|]);
    intros genv ginfo gtitle Hge Ht Hs; unfold get_file;
    rewrite Hkeep; cbn [status job pending set_status job_url job_ext output_file];
    change (negb ("completed" =? "completed")%string) with false; cbv iota;
    rewrite Hp, Hge, Ht, Hs; reflexivity.
Qed.

Lemma completed_download_is_served_witness :
  let result := download (fun _ => true) "/tmp/dl" (Some "https://youtu.be/abc123")
                         (Some "bestaudio") success_env (mkState ∅ []) in
  exists job p,
    downloads (run (fun _ => true) "/tmp/dl" result.1.1 later_requests) !! "6f1c"
    = Some job
    ∧ status job = "completed"
    ∧ output_file job = "/tmp/dl/6f1c" +:+ "." +:+ job_ext job
    ∧ result.1.2 = JsonSuccess "6f1c"
    ∧ (get_file (fun _ => true) "6f1c" fetch_ok
                (run (fun _ => true) "/tmp/dl" result.1.1 later_requests)).1
      = SendFile (output_file job)
          (p +:+ "_" +:+ "Cats_Video_Part_1" +:+ "." +:+ job_ext job)
          (mimetype_of (job_ext job)).
Proof.
  cbv zeta.
  destruct (completed_download_is_served (fun _ => true) "/tmp/dl" (mkState ∅ [])
              "https://youtu.be/abc123" "bestaudio" success_env clip_info
              later_requests)
    as (job & p & Hjob & Hs & _ & _ & Hout & _ & _ & Hresp & Hget).
  - vm_compute; reflexivity.
  - discriminate.
  - reflexivity.
  - reflexivity.
  - unfold later_requests.
    constructor; [discriminate|].
    constructor; [discriminate|].
    constructor; [discriminate|]. constructor.
  - exists job, p. split; [exact Hjob|]. split; [exact Hs|].
    split; [exact Hout|]. split; [exact (Hresp eq_refl)|].
    exact (Hget fetch_ok fetched_info "Cat's Video: Part #1!" eq_refl eq_refl eq_refl).
Defined.

(** X15.  Starting from an empty job table, after any sequence of
    requests, every job has the status [downloading] or [completed] (never
    a failure status), an output file named after its id and its extension
    in [temp_dir], a non-empty format and a URL that [validate_url] accepts,
    so that [get_platform] gives it one of the six platform tags. *)
Theorem job_table_invariant (chk : string -> bool) (tmp : string)
    (rows : list Download) (reqs : list request) (download_id : string)
    (job : Job) :
  downloads (run chk tmp (mkState ∅ rows) reqs) !! download_id = Some job ->
  (status job = "downloading" ∨ status job = "completed")
  ∧ output_file job = os_path_join tmp download_id +:+ "." +:+ job_ext job
  ∧ validate_url chk (job_url job) = Some true
  ∧ job_format_id job <> ""
  ∧ exists p, get_platform chk (job_url job) = Some p ∧ p ∈ platform_tags.
Proof.
  intros Hjob.
  assert (job_ok chk tmp download_id job) as (Hs & Ho & Hv & Hf).
  { apply (run_job_ok chk tmp reqs (mkState ∅ rows)); [|exact Hjob].
    intros k j Hk. cbn [downloads] in Hk. rewrite lookup_empty in Hk. discriminate. }
  repeat split; try assumption.
  apply valid_url_platform, Hv.
Qed.

Lemma job_table_invariant_witness :
  let job := mkJob "https://youtu.be/abc123" "18" "/tmp/dl/77aa.mp4" "mp4"
                   "completed" in
  (status job = "downloading" ∨ status job = "completed")
  ∧ output_file job = os_path_join "/tmp/dl" "77aa" +:+ "." +:+ job_ext job
  ∧ validate_url (fun _ => true) (job_url job) = Some true
  ∧ job_format_id job <> ""
  ∧ exists p, get_platform (fun _ => true) (job_url job) = Some p
              ∧ p ∈ platform_tags.
Proof.
  cbv zeta.
  apply (job_table_invariant (fun _ => true) "/tmp/dl" [] later_requests "77aa").
  vm_compute. reflexivity.
Defined.

(** X16.  [download] adds a row to the history exactly when it answers with
    success.  Then it adds one row, at the end: the row that it handed to
    the database, made of the platform tag of the URL, of the id, title,
    thumbnail and duration that the provider gave, of the format id followed
    by the extension of the job in brackets, and of the size of the output
    file when it exists.  With any other answer the history is the one
    before the request. *)
Theorem history_row_on_success (chk : string -> bool) (tmp : string)
    (form_url form_format : option string) (env : DownloadEnv) (st : State) :
  let result := download chk tmp form_url form_format env st in
  ((forall download_id, result.1.2 <> JsonSuccess download_id) ->
   history result.1.1 = history st)
  ∧ (forall download_id,
        result.1.2 = JsonSuccess download_id ->
        exists url format_id info p job row,
          form_url = Some url ∧ form_format = Some format_id
          ∧ download_id = uuid4 env
          ∧ extract_info env = Returns info
          ∧ get_platform chk url = Some p
          ∧ downloads result.1.1 !! download_id = Some job
          ∧ history result.1.1 = history st ++ [row]
          ∧ last result.2 = Some (DbCommit row)
          ∧ platform row = p
          ∧ video_id row = info_id info
          ∧ title row = mjoin (info_title info)
          ∧ format row = format_id +:+ " (" +:+ job_ext job +:+ ")"
          ∧ thumbnail_url row = info_thumbnail info
          ∧ duration row = info_duration info
          ∧ (forall n, getsize env = Some n -> dl_filesize row = Some n)).
Proof.
  cbv zeta. unfold download.
  destruct form_url as [url|];
    [|split; [reflexivity | intros k; discriminate]].
  destruct form_format as [format_id|];
    [|rewrite orb_true_r; split; [reflexivity | intros k; discriminate]].
  destruct (falsy (Some url) || falsy (Some format_id));
    [split; [reflexivity | intros k; discriminate]|].
  cbn [from_option id].
  destruct (validate_url chk url) as [[]|];
    [|split; [reflexivity | intros k; discriminate]..].
  destruct (get_platform chk url) as [p|] eqn:Hp;
    [|split; [reflexivity | intros k; discriminate]].
  destruct (extract_info env) as [info|msg] eqn:Hinfo;
    [|split; [reflexivity | intros k; discriminate]].
  destruct (find_selected format_id (info_formats info)) as [[selected size] e0].
  destruct (build_opts (os_path_join tmp (uuid4 env)) format_id selected e0)
    as [opts e].
  destruct (ydl_download env) as [[]|msg];
    [|split; [reflexivity | intros k; discriminate]].
  destruct (commit env) as [[]|msg];
    [|split; [reflexivity | intros k; discriminate]].
  cbn [fst snd history downloads]. split.
  - intros Hno. exfalso. exact (Hno (uuid4 env) eq_refl).
  - intros k [= <-].
    eexists url, format_id, info, p, _, _.
    do 5 (split; [first [reflexivity | assumption]|]).
    split; [apply lookup_insert_eq|].
    split; [reflexivity|].
    split; [rewrite last_snoc; reflexivity|].
    cbn [platform video_id title format thumbnail_url duration dl_filesize
         job_ext set_status].
    do 6 (split; [reflexivity|]).
    intros n ->. reflexivity.
Qed.

Lemma history_row_on_success_witness :
  exists row,
    history (download (fun _ => true) "/tmp/dl"
               (Some "https://www.youtube.com/watch?v=dQw4w9WgXcQ") (Some "18")
               success_env (mkState ∅ [])).1.1
    = [row]
    ∧ platform row = "youtube"
    ∧ format row = "18 (mp4)".
Proof.
  destruct (proj2 (history_row_on_success (fun _ => true) "/tmp/dl"
                     (Some "https://www.youtube.com/watch?v=dQw4w9WgXcQ")
                     (Some "18") success_env (mkState ∅ []))
                  "6f1c" eq_refl)
    as (url & format_id & info & p & job & row & [= <-] & [= <-] & _ & _
        & Hp & Hjob & Hrow & _ & Hplat & _ & _ & Hform & _).
  exists row. split; [exact Hrow|].
  vm_compute in Hp. injection Hp as <-.
  vm_compute in Hjob. injection Hjob as <-.
  split; [exact Hplat | exact Hform].
Defined.

(** X17.  An answer 500 of [download] leaves the history as it was, and the
    job table in one of three states: untouched, when [extract_info]
    raised; with the new job left [downloading], when the download raised;
    with the new job [completed], when the commit raised. *)
Theorem server_error_states (chk : string -> bool) (tmp : string)
    (form_url form_format : option string) (env : DownloadEnv) (st : State)
    (msg : string) :
  let result := download chk tmp form_url form_format env st in
  result.1.2 = JsonError 500 msg ->
  history result.1.1 = history st
  ∧ ((extract_info env = Raises msg ∧ result.1.1 = st)
     ∨ exists job,
         downloads result.1.1 = <[uuid4 env := job]> (downloads st)
         ∧ ((status job = "downloading" ∧ ydl_download env = Raises msg)
            ∨ (status job = "completed" ∧ commit env = Raises msg))).
Proof.
  cbv zeta. unfold download.
  destruct (falsy form_url || falsy form_format); [discriminate|].
  destruct (validate_url chk _) as [[]|]; try discriminate.
  destruct (get_platform chk _); [|discriminate].
  destruct (extract_info env) as [info|emsg] eqn:He.
  - destruct (find_selected _ _) as [[selected filesize] ext0].
    destruct (build_opts _ _ _ _) as [opts ext].
    destruct (ydl_download env) as [[]|dmsg] eqn:Hd.
    + destruct (commit env) as [[]|cmsg] eqn:Hc; cbn [fst snd history downloads];
        [discriminate|].
      intros [= <-]. split; [reflexivity|]. right.
      eexists. split; [apply insert_insert_eq|]. right. auto.
    + cbn [fst snd history downloads]. intros [= <-]. split; [reflexivity|].
      right. eexists. split; [reflexivity|]. left. auto.
  - cbn [fst snd]. intros [= <-]. destruct st. auto.
Qed.

Lemma server_error_states_witness :
  let result := download (fun _ => true) "/tmp/dl" (Some "https://youtu.be/abc123")
                         (Some "18") failing_env (mkState ∅ []) in
  history result.1.1 = []
  ∧ ((extract_info failing_env = Raises "HTTP Error 403: Forbidden"
      ∧ result.1.1 = mkState ∅ [])
     ∨ exists job,
         downloads result.1.1 = <["6f1c" := job]> ∅
         ∧ ((status job = "downloading"
             ∧ ydl_download failing_env = Raises "HTTP Error 403: Forbidden")
            ∨ (status job = "completed"
               ∧ commit failing_env = Raises "HTTP Error 403: Forbidden"))).
Proof.
  cbv zeta.
  apply (server_error_states (fun _ => true) "/tmp/dl" (Some "https://youtu.be/abc123")
           (Some "18") failing_env (mkState ∅ []) "HTTP Error 403: Forbidden").
  vm_compute. reflexivity.
Defined.

Section SelectionFacts.

Lemma find_selected_find (format_id : string) (fs : list RawFormat) :
  find_selected format_id fs
  = match find (fun f => bool_decide (raw_format_id f = Some format_id)) fs with
    | Some f => (Some f, raw_filesize f, default "mp4" (raw_ext f))
    | None => (None, None, "mp4")
    end.
Proof.
  induction fs as [|f fs IH]; [reflexivity|].
  cbn [find_selected find]. destruct (bool_decide _); [reflexivity | exact IH].
Qed.

End SelectionFacts.

(** X18.  For a format id other than the two made-up ones, when the
    provider's format of that id has no sound, [download] asks the provider
    for that format plus the best m4a sound, merged into an mp4 container,
    while the job keeps the container of the provider's format: its output
    file is named with that extension, also when it is not mp4. *)
Theorem video_only_merge_container (chk : string -> bool) (tmp : string)
    (st : State) (url format_id : string) (env : DownloadEnv) (info : Info)
    (f : RawFormat) (e : string) :
  validate_url chk url = Some true ->
  format_id <> "" -> format_id <> "bestaudio" ->
  format_id <> "best[ext=mp4]/best" ->
  extract_info env = Returns info ->
  find (fun f => bool_decide (raw_format_id f = Some format_id)) (info_formats info)
  = Some f ->
  raw_acodec f = Some "none" -> raw_ext f = Some e -> e <> "mp3" ->
  let result := download chk tmp (Some url) (Some format_id) env st in
  exists opts job,
    CallYdlDownload opts url ∈ result.2
    ∧ opt_format opts = format_id +:+ "+bestaudio[ext=m4a]/best"
    ∧ merge_output_format opts = Some "mp4"
    ∧ downloads result.1.1 !! uuid4 env = Some job
    ∧ job_ext job = e
    ∧ output_file job = os_path_join tmp (uuid4 env) +:+ "." +:+ e.
Proof.
  intros Hv Hf Ha Hb He Hfind Hac Hext Hmp3 result.
  destruct (valid_url_platform chk url Hv) as (p & Hp & _).
  pose proof (valid_fields_not_falsy chk url format_id Hv Hf) as Hfalsy.
  subst result. unfold download.
  rewrite Hfalsy. cbn [from_option id]. rewrite Hv, Hp, He.
  rewrite find_selected_find, Hfind, Hext. cbn [from_option id].
  unfold build_opts.
  apply String.eqb_neq in Ha, Hb, Hmp3. rewrite Ha, Hb, Hmp3, Hac.
  cbn [negb]. rewrite bool_decide_eq_true_2 by reflexivity.
  destruct (ydl_download env); [destruct (commit env)|];
    cbn [fst snd downloads]; eexists _, _;
    (split; [rewrite ?elem_of_app, !elem_of_cons; tauto|]);
    (split; [reflexivity|]); (split; [reflexivity|]);
    (split; [apply lookup_insert_eq|]); split; reflexivity.
Qed.

Lemma video_only_merge_container_witness :
  let result := download (fun _ => true) "/tmp/dl" (Some "https://youtu.be/abc123")
                         (Some "248") video_only_env (mkState ∅ []) in
  exists opts job,
    CallYdlDownload opts "https://youtu.be/abc123" ∈ result.2
    ∧ opt_format opts = "248" +:+ "+bestaudio[ext=m4a]/best"
    ∧ merge_output_format opts = Some "mp4"
    ∧ downloads result.1.1 !! "9d2e" = Some job
    ∧ job_ext job = "webm"
    ∧ output_file job = os_path_join "/tmp/dl" "9d2e" +:+ "." +:+ "webm".
Proof.
  cbv zeta.
  apply (video_only_merge_container (fun _ => true) "/tmp/dl" (mkState ∅ [])
           "https://youtu.be/abc123" "248" video_only_env video_only_info
           (mkRaw (Some "248") (Some "webm") (Some 9000) (Some "none")) "webm");
    first [ discriminate | reflexivity | vm_compute; reflexivity ].
Defined.

(** ** More on the sanitised title *)

Section SanitizeMore.

Lemma str_forallb_map (p q : ascii -> bool) (f : ascii -> ascii) (s : string) :
  (forall c, p c = true -> q (f c) = true) ->
  str_forallb p s = true -> str_forallb q (str_map f s) = true.
Proof.
  intros Hpq. induction s as [|c s IH]; [reflexivity|].
  cbn [str_forallb str_map]. intros [Hc Hs]%andb_true_iff.
  rewrite (Hpq c Hc), (IH Hs). reflexivity.
Qed.

Lemma str_filter_all (p : ascii -> bool) (s : string) :
  str_forallb p (str_filter p s) = true.
Proof.
  induction s as [|c s IH]; [reflexivity|].
  cbn [str_filter]. destruct (p c) eqn:Hc; [|exact IH].
  cbn [str_forallb]. rewrite Hc, IH. reflexivity.
Qed.

Lemma str_filter_id (p : ascii -> bool) (s : string) :
  str_forallb p s = true -> str_filter p s = s.
Proof.
  induction s as [|c s IH]; [reflexivity|].
  cbn [str_forallb str_filter]. intros [Hc Hs]%andb_true_iff.
  rewrite Hc, (IH Hs). reflexivity.
Qed.

Lemma str_map_id (p : ascii -> bool) (f : ascii -> ascii) (s : string) :
  (forall c, p c = true -> f c = c) ->
  str_forallb p s = true -> str_map f s = s.
Proof.
  intros Hf. induction s as [|c s IH]; [reflexivity|].
  cbn [str_forallb str_map]. intros [Hc Hs]%andb_true_iff.
  rewrite (Hf c Hc), (IH Hs). reflexivity.
Qed.

Lemma underscore_sanitized (c : ascii) :
  title_char c = true -> sanitized_char (space_to_underscore c) = true.
Proof.
  unfold sanitized_char, space_to_underscore.
  destruct (Ascii.eqb_spec c " ") as [->|Hne]; [reflexivity|].
  intros ->. apply Ascii.eqb_neq in Hne. rewrite Hne. reflexivity.
Qed.

Lemma sanitize_title_chars (title : string) :
  str_forallb sanitized_char (sanitize_title title) = true.
Proof.
  unfold sanitize_title. rewrite py_replace_space.
  apply (str_forallb_map title_char); [apply underscore_sanitized|].
  unfold py_strip. apply str_forallb_rstrip, str_forallb_lstrip, str_filter_all.
Qed.

Lemma lstrip_by_id (p : ascii -> bool) (s : string) :
  (forall c t, s = String c t -> p c = false) -> lstrip_by p s = s.
Proof.
  destruct s as [|c s]; [reflexivity|]. intros H. cbn [lstrip_by].
  rewrite (H c s eq_refl). reflexivity.
Qed.

Lemma rstrip_by_id (p : ascii -> bool) (s : string) :
  (forall t c, s = t +:+ String c "" -> p c = false) -> rstrip_by p s = s.
Proof.
  induction s as [|c s IH]; [reflexivity|]. intros H. cbn [rstrip_by].
  rewrite IH.
  - destruct s; [|reflexivity]. rewrite (H "" c eq_refl). reflexivity.
  - intros t d ->. apply (H (String c t) d). reflexivity.
Qed.

Lemma str_map_head (f : ascii -> ascii) (s : string) (c : ascii) (t : string) :
  str_map f s = String c t -> exists c0 t0, s = String c0 t0 ∧ c = f c0.
Proof. destruct s as [|c0 t0]; [discriminate|]. intros [= <- _]. eauto. Qed.

Lemma str_map_last (f : ascii -> ascii) (s : string) : forall t c,
  str_map f s = t +:+ String c "" ->
  exists t0 c0, s = t0 +:+ String c0 "" ∧ c = f c0.
Proof.
  induction s as [|d s IH]; intros t c; cbn [str_map].
  - destruct t; discriminate.
  - destruct t as [|e t].
    + rewrite append_nil. intros [= <- Hs]. destruct s; [|discriminate].
      exists "", d. auto.
    + rewrite append_cons. intros [= _ Hs].
      destruct (IH t c Hs) as (t0 & c0 & -> & ->).
      exists (String d t0), c0. auto.
Qed.

Lemma underscore_not_space (c : ascii) :
  py_isspace c = false -> py_isspace (space_to_underscore c) = false.
Proof.
  unfold space_to_underscore.
  destruct (Ascii.eqb_spec c " ") as [->|]; [discriminate | auto].
Qed.

Lemma sanitized_no_blank (c : ascii) :
  sanitized_char c = true -> space_to_underscore c = c.
Proof.
  unfold sanitized_char, space_to_underscore.
  intros [_ H]%andb_true_iff. apply negb_true_iff in H. rewrite H. reflexivity.
Qed.

Lemma sanitized_is_title_char (c : ascii) :
  sanitized_char c = true -> title_char c = true.
Proof. unfold sanitized_char. intros [H _]%andb_true_iff. exact H. Qed.

End SanitizeMore.

(** X19.  A sanitised title holds only word characters, hyphens and white
    space other than the blank: no blank, and none of the slash, the
    backslash, the dot, the colon and the null character. *)
Theorem sanitized_title_alphabet (title : string) :
  str_forallb
    (fun c => (py_isword c || py_isspace c || Ascii.eqb c "-")
              && negb (Ascii.eqb c " "))
    (sanitize_title title) = true
  ∧ str_mem " " (sanitize_title title) = false
  ∧ str_mem "/" (sanitize_title title) = false
  ∧ str_mem "\" (sanitize_title title) = false
  ∧ str_mem "." (sanitize_title title) = false
  ∧ str_mem ":" (sanitize_title title) = false
  ∧ str_mem "000" (sanitize_title title) = false.
Proof.
  pose proof (sanitize_title_chars title) as H.
  split; [exact H|].
  repeat split; (revert H; apply str_mem_forallb; reflexivity).
Qed.

(** X20.  Sanitising a sanitised title changes nothing. *)
Theorem sanitize_title_idempotent (title : string) :
  sanitize_title (sanitize_title title) = sanitize_title title.
Proof.
  pose proof (sanitize_title_chars title) as Hchars.
  assert (py_strip (sanitize_title title) = sanitize_title title) as Hstrip.
  { unfold sanitize_title at 1 2. rewrite py_replace_space.
    destruct (py_strip_spec (str_filter title_char title))
      as (l & r & _ & _ & _ & Hhead & Hlast).
    unfold py_strip at 1. rewrite lstrip_by_id.
    - apply rstrip_by_id. intros t c (t0 & c0 & Ht & ->)%str_map_last.
      apply underscore_not_space. exact (Hlast t0 c0 Ht).
    - intros c t (c0 & t0 & Ht & ->)%str_map_head.
      apply underscore_not_space. exact (Hhead c0 t0 Ht). }
  unfold sanitize_title at 1.
  rewrite (str_filter_id title_char)
    by (revert Hchars; apply str_forallb_weaken, sanitized_is_title_char).
  rewrite Hstrip, py_replace_space.
  apply (str_map_id sanitized_char); [apply sanitized_no_blank | exact Hchars].
Qed.

(** ** The database address *)

Section DatabaseFacts.

Lemma startswith_inv (a : string) : forall s,
  py_startswith a s = true -> exists rest, s = a +:+ rest.
Proof.
  induction a as [|c a IH]; intros s; [exists s; reflexivity|].
  destruct s as [|d s]; cbn [py_startswith]; [discriminate|].
  intros [Hc (rest & ->)%IH]%andb_true_iff. apply Ascii.eqb_eq in Hc. subst d.
  exists rest. reflexivity.
Qed.

Lemma database_uri_postgres (rest : string) :
  database_uri (Some ("postgres://" +:+ rest)) = "postgresql://" +:+ rest.
Proof. reflexivity. Qed.

End DatabaseFacts.

(** X21.  The database address is the default sqlite file when
    [DATABASE_URL] is unset or empty; a value that starts with
    [postgres://] has this prefix, and nothing else, replaced by
    [postgresql://]; any other value is kept.  The address never starts
    with [postgres://]. *)
Theorem database_uri_normalised :
  (forall rest, database_uri (Some ("postgres://" +:+ rest))
                = "postgresql://" +:+ rest)
  ∧ (forall url, url <> "" -> py_startswith "postgres://" url = false ->
                 database_uri (Some url) = url)
  ∧ database_uri None = "sqlite:///youtube_downloader.db"
  ∧ database_uri (Some "") = "sqlite:///youtube_downloader.db"
  ∧ (forall database_url,
        py_startswith "postgres://" (database_uri database_url) = false).
Proof.
  split; [exact database_uri_postgres|].
  assert (forall url, url <> "" -> py_startswith "postgres://" url = false ->
                      database_uri (Some url) = url) as Hkeep.
  { intros url Hne Hs. unfold database_uri.
    apply String.eqb_neq in Hne. rewrite Hne, Hs. reflexivity. }
  split; [exact Hkeep|]. split; [reflexivity|]. split; [reflexivity|].
  intros [url|]; [|reflexivity].
  destruct (String.eqb_spec url "") as [->|Hne]; [reflexivity|].
  destruct (py_startswith "postgres://" url) eqn:Hs.
  - apply startswith_inv in Hs as (rest & ->).
    rewrite database_uri_postgres. reflexivity.
  - rewrite (Hkeep url Hne Hs). exact Hs.
Qed.

Lemma database_uri_normalised_witness :
  database_uri (Some "mysql://db/postgres://x") = "mysql://db/postgres://x".
Proof.
  apply (proj1 (proj2 database_uri_normalised)); [discriminate | reflexivity].
Defined.

(** ** The duration filter *)

Section DurationFacts.

Lemma uint_value_ge (d : uint) (acc : Z) :
  0 <= acc -> acc * 10 ^ Z.of_nat (uint_len d) <= uint_value acc d.
Proof.
  intros Hacc. rewrite uint_value_of_lu.
  pose proof (N2Z.is_nonneg (DecimalPos.Unsigned.of_lu (Decimal.rev d))). lia.
Qed.

Lemma pos_uint_normal (p : positive) :
  Pos.to_uint p = Decimal.unorm (Pos.to_uint p).
Proof.
  rewrite <- (DecimalPos.Unsigned.to_of (Pos.to_uint p)).
  rewrite DecimalPos.Unsigned.of_to. reflexivity.
Qed.

Lemma pos_uint_head (p : positive) (d : uint) : Pos.to_uint p <> D0 d.
Proof.
  intros H. pose proof (pos_uint_normal p) as Hn. rewrite H in Hn.
  pose proof (DecimalFacts.nzhead_nonzero (D0 d)) as Hnz.
  unfold Decimal.unorm in Hn.
  destruct (Decimal.nzhead (D0 d)) eqn:Hh.
  - assert (uint_value 0 (Pos.to_uint p) = 0) as Hv.
    { rewrite H. injection Hn as ->. reflexivity. }
    rewrite uint_value_pos in Hv. discriminate.
  - apply (Hnz d). congruence.
  - congruence.
  - congruence.
  - congruence.
  - congruence.
  - congruence.
  - congruence.
  - congruence.
  - congruence.
  - congruence.
Qed.

Lemma pos_uint_len (p : positive) :
  10 ^ (Z.of_nat (uint_len (Pos.to_uint p)) - 1) <= Zpos p.
Proof.
  rewrite <- (uint_value_pos p).
  pose proof (pos_uint_head p) as Hhead.
  pose proof (DecimalPos.Unsigned.to_uint_nonnil p) as Hnil.
  destruct (Pos.to_uint p) as [|d|d|d|d|d|d|d|d|d|d];
    [congruence | exfalso; exact (Hhead d eq_refl) |..];
    cbn [uint_value uint_len];
    rewrite Nat2Z.inj_succ;
    replace (Z.succ (Z.of_nat (uint_len d)) - 1) with (Z.of_nat (uint_len d))
      by lia;
    (etransitivity; [|apply uint_value_ge; lia]);
    pose proof (Z.pow_nonneg 10 (Z.of_nat (uint_len d)));
    nia.
Qed.

Lemma printed_length (n : Z) :
  0 <= n < 10 ^ Z.of_nat int_max_str_digits ->
  (String.length (py_str_int (Z.abs n)) <= int_max_str_digits)%nat.
Proof.
  assert (1 <= int_max_str_digits)%nat as Hk
    by (unfold int_max_str_digits; lia).
  revert Hk. generalize int_max_str_digits as k. intros k Hk [H0 Hn].
  destruct n as [|p|p]; [| |lia].
  - exact Hk.
  - change (Z.abs (Z.pos p)) with (Z.pos p).
    rewrite py_str_int_pos, uint_string_length.
    pose proof (pos_uint_len p) as Hlen.
    assert (10 ^ (Z.of_nat (uint_len (Pos.to_uint p)) - 1) < 10 ^ Z.of_nat k)
      as Hlt by (eapply Z.le_lt_trans; eassumption).
    apply Z.pow_lt_mono_r_iff in Hlt; lia.
Qed.

Lemma printed_read (n : Z) :
  0 <= n < 10 ^ Z.of_nat int_max_str_digits ->
  py_str_int_checked n = Some (py_str_int n)
  ∧ py_int (py_str_int n) = Some n
  ∧ str_mem ":" (py_str_int n) = false.
Proof.
  intros Hn.
  assert (py_str_int_checked n = Some (py_str_int n)) as Hs.
  { unfold py_str_int_checked.
    apply printed_length, Nat.leb_le in Hn. rewrite Hn. reflexivity. }
  split; [exact Hs|]. split; [exact (py_int_str_int n _ Hs)|].
  apply (str_mem_forallb _ digit_or_minus); [reflexivity|].
  apply py_str_int_chars.
Qed.

Lemma pad2_read (m : Z) :
  0 <= m < 60 ->
  exists t, py_format_02d m = Some t ∧ py_int t = Some m
            ∧ str_mem ":" t = false.
Proof.
  intros Hm. destruct m as [|p|p]; [| |lia].
  - eexists. repeat split; reflexivity.
  - do 6 (try (destruct p as [p|p|]; try lia));
      eexists; (split; [vm_compute; reflexivity|]); split; reflexivity.
Qed.

Lemma sixty_small : 60 <= 10 ^ Z.of_nat int_max_str_digits.
Proof.
  transitivity (10 ^ 2); [vm_compute; discriminate|].
  apply Z.pow_le_mono_r; [lia|]. unfold int_max_str_digits. lia.
Qed.

End DurationFacts.

(** X22.  For a positive number of seconds that CPython can print (fewer
    than [10 ^ 4300]), [format_duration] returns a text, and reading this
    text as [H:MM:SS] or [M:SS] gives the number of seconds back. *)
Theorem format_duration_round_trip (seconds : Z) :
  0 < seconds < 10 ^ Z.of_nat int_max_str_digits ->
  exists text, format_duration (Some seconds) = Some text
               ∧ parse_clock text = Some seconds.
Proof.
  intros Hs. pose proof sixty_small as H60.
  unfold format_duration.
  destruct (Z.eqb_spec seconds 0) as [|_]; [lia|].
  assert (0 <= seconds / 3600 < 10 ^ Z.of_nat int_max_str_digits) as Hh
    by (Z.to_euclidean_division_equations; lia).
  assert (0 <= seconds mod 3600 / 60 < 60) as Hm
    by (Z.to_euclidean_division_equations; lia).
  assert (0 <= seconds mod 60 < 60) as Hsec
    by (Z.to_euclidean_division_equations; lia).
  assert (3600 * (seconds / 3600) + 60 * (seconds mod 3600 / 60)
          + seconds mod 60 = seconds) as Hsum
    by (Z.to_euclidean_division_equations; lia).
  destruct (pad2_read _ Hsec) as (ts & Hts & Hrs & Hcs).
  cbv zeta. destruct (Z.ltb_spec 0 (seconds / 3600)) as [Hpos|Hzero].
  - destruct (printed_read _ Hh) as (Hth & Hrh & Hch).
    destruct (pad2_read _ Hm) as (tm & Htm & Hrm & Hcm).
    rewrite Hth, Htm, Hts. cbn [mbind option_bind].
    eexists. split; [reflexivity|].
    unfold parse_clock.
    rewrite append_cons, append_nil, (py_split_append ":" _ _ Hch).
    rewrite append_cons, append_nil, (py_split_append ":" _ _ Hcm).
    rewrite (py_split_no_sep ":" _ Hcs).
    rewrite Hrh, Hrm, Hrs. cbn [mbind option_bind]. f_equal. exact Hsum.
  - assert (0 <= seconds mod 3600 / 60 < 10 ^ Z.of_nat int_max_str_digits)
      as Hm' by lia.
    destruct (printed_read _ Hm') as (Htm & Hrm & Hcm).
    rewrite Htm, Hts. cbn [mbind option_bind].
    eexists. split; [reflexivity|].
    unfold parse_clock.
    rewrite append_cons, append_nil, (py_split_append ":" _ _ Hcm).
    rewrite (py_split_no_sep ":" _ Hcs).
    rewrite Hrm, Hrs. cbn [mbind option_bind]. f_equal.
    assert (seconds / 3600 = 0) as Hz by lia. rewrite Hz in Hsum. lia.
Qed.

Lemma format_duration_round_trip_witness :
  exists text, format_duration (Some 3725) = Some text
               ∧ parse_clock text = Some 3725.
Proof.
  apply (format_duration_round_trip 3725). split; [lia|].
  apply Z.lt_le_trans with (10 ^ 4); [reflexivity|].
  apply Z.pow_le_mono_r; [lia|]. unfold int_max_str_digits. lia.
Defined.

(** ** The size filter *)

Section SizeFacts.




End SizeFacts.


